(** * SoundSpace: the recorder, the exporter and the two instrument panels

    A shallow embedding of the React components of the repository:
    the session controller [SoundSpace] (recording state, note log, export),
    and the instrument panels [Piano] and [Drums] (keyboard and pointer
    input, the pressed and active sets, the auto-clear timers).

    Conventions.
    - [Date.now()] is an integer number of milliseconds: [Z].
    - A JS [Set<string>] held in React state is a [gset string]; every
      setter in the source builds a fresh set from the previous one, so a
      functional update is a function on the set.
    - One event handler runs to completion, React re-renders and re-runs
      the effects whose dependencies changed, and only then is the next
      input event delivered: a handler is a function from the state before
      the event to the state after it, together with the list of calls it
      made to its collaborators (the Tone.js synthesizer, the [onNotePlay]
      callback, [setTimeout]). *)

From Stdlib Require Import ZArith Lia Sorted Ascii String DecimalString.
From Stdlib Require DecimalZ DecimalPos.
From stdpp Require Import gmap strings list.

Local Open Scope Z_scope.

(** ** JavaScript helpers *)

Module Js.

(** [x || 0] on a possibly undefined number: [undefined] and [0] are
    falsy. *)
Definition or_zero (x : option Z) : Z :=
  match x with
  | Some v => if v =? 0 then 0 else v
  | None => 0
  end.

(** [`${n}`] for an integer [n]. *)
Definition number_to_string (n : Z) : string :=
  NilZero.string_of_int (Z.to_int n).

(** A non-empty string is truthy. *)
Definition truthy (s : string) : bool := negb (String.eqb s "").


(** [String.prototype.toLowerCase], on the ASCII letters: it is the
    source's function on strings of ASCII characters.  (Outside ASCII
    the source lowers by Unicode; U+212A, the Kelvin sign, becomes the
    letter k.) *)
Definition lower_ascii (c : ascii) : ascii :=
  let n := nat_of_ascii c in
  if ((65 <=? n) && (n <=? 90))%nat then ascii_of_nat (n + 32)%nat else c.

Fixpoint toLowerCase (s : string) : string :=
  match s with
  | EmptyString => EmptyString
  | String c rest => String (lower_ascii c) (toLowerCase rest)
  end.

(** [arr[arr.length - 1]], which is [undefined] on the empty array. *)
Definition last_elem {A} (l : list A) : option A := last l.

End Js.

(** ** The session controller (component [SoundSpace]) *)

Module SoundSpace.

Inductive Instrument := piano | drums.

Record NoteEvent := mkNoteEvent {
  instrument : Instrument;
  note : string;
  timestamp : Z
}.

(** The four pieces of state of the component: three [useState] cells
    and the [recordingStartTime] ref. *)
Record Session := mkSession {
  activeInstrument : Instrument;
  isRecording : bool;
  recordedNotes : list NoteEvent;
  recordingStartTime : Z
}.

Definition initial : Session :=
  {| activeInstrument := piano;
     isRecording := false;
     recordedNotes := [];
     recordingStartTime := 0 |}.

(** [setActiveInstrument(i)], the click handler of the two switcher
    buttons. *)
Definition setActiveInstrument (i : Instrument) (s : Session) : Session :=
  {| activeInstrument := i;
     isRecording := isRecording s;
     recordedNotes := recordedNotes s;
     recordingStartTime := recordingStartTime s |}.

(** [handleStartRecording], run at time [now]. *)
Definition handleStartRecording (now : Z) (s : Session) : Session :=
  {| activeInstrument := activeInstrument s;
     isRecording := true;
     recordedNotes := [];
     recordingStartTime := now |}.

Definition handleStopRecording (s : Session) : Session :=
  {| activeInstrument := activeInstrument s;
     isRecording := false;
     recordedNotes := recordedNotes s;
     recordingStartTime := recordingStartTime s |}.

(** [handleNotePlay].  The callback is a closure made by [useCallback]
    with dependencies [isRecording] and [activeInstrument]: those two
    are the values of the render [r] that created it.  The start time is
    read from the ref and the log is extended by a functional update, so
    both act on the store [s] at the time of the call. *)
Definition handleNotePlay (r : Session) (n : string) (now : Z)
    (s : Session) : Session :=
  if isRecording r then
    let noteEvent :=
      {| instrument := activeInstrument r;
         note := n;
         timestamp := now - recordingStartTime s |} in
    {| activeInstrument := activeInstrument s;
       isRecording := isRecording s;
       recordedNotes := recordedNotes s ++ [noteEvent];
       recordingStartTime := recordingStartTime s |}
  else s.

(** The [onNotePlay] prop handed to the mounted panel by the render of
    state [s], called in that same state. *)
Definition onNotePlay (n : string) (now : Z) (s : Session) : Session :=
  handleNotePlay s n now s.

(** The exported document and the download the browser is asked for. *)
Record Recording := mkRecording {
  title : string;
  notes : list NoteEvent;
  duration : Z
}.

Record Download := mkDownload {
  content : Recording;      (* the object given to JSON.stringify *)
  download : string         (* link.download, the file name *)
}.

(** [handleDownloadRecording], a closure over the log of render [r];
    [iso] is [new Date().toISOString()] and [now] is [Date.now()].
    It calls no setter: the store is returned as it came, next to the
    download it started, if any. *)
Definition handleDownloadRecording (r : Session) (iso : string) (now : Z)
    (s : Session) : Session * option Download :=
  if (length (recordedNotes r) =? 0)%nat then (s, None)
  else
    let recording :=
      {| title := "SoundSpace Recording - " +:+ iso;
         notes := recordedNotes r;
         duration :=
           Js.or_zero (timestamp <$> Js.last_elem (recordedNotes r)) |} in
    (s, Some {| content := recording;
                download := "soundspace-recording-"
                              +:+ Js.number_to_string now +:+ ".json" |}).

(** The export button of the render of state [s]. *)
Definition exportRecording (iso : string) (now : Z) (s : Session)
    : Session * option Download :=
  handleDownloadRecording s iso now s.

(** What the user and the mounted panel can ask of the controller. *)
Inductive Action :=
| SelectInstrument (i : Instrument)
| StartRecording
| StopRecording
| NotePlay (n : string)
| DownloadRecording (iso : string).

(** One action, performed at time [now]. *)
Definition step (s : Session) (a : Z * Action) : Session :=
  match a with
  | (_, SelectInstrument i) => setActiveInstrument i s
  | (now, StartRecording) => handleStartRecording now s
  | (_, StopRecording) => handleStopRecording s
  | (now, NotePlay n) => onNotePlay n now s
  | (now, DownloadRecording iso) => fst (exportRecording iso now s)
  end.

Definition run (s : Session) (l : list (Z * Action)) : Session :=
  fold_left step l s.

(** The actions of a list happen in the order of the list, none before
    time [t]: the clock readings never decrease. *)
Fixpoint chronological (t : Z) (l : list (Z * Action)) : Prop :=
  match l with
  | [] => True
  | (u, _) :: rest => t <= u /\ chronological u rest
  end.

(** The log's timestamps, in log order. *)
Definition timestamps (s : Session) : list Z :=
  timestamp <$> recordedNotes s.

(** A list of numbers never decreases from an earlier position to a
    later one. *)
Definition nondecreasing (l : list Z) : Prop :=
  forall (i j : nat) (x y : Z),
    (i <= j)%nat -> l !! i = Some x -> l !! j = Some y -> x <= y.

(** What every action keeps true at time [t]: the log never decreases
    and no logged timestamp is later than [t] on the session's clock. *)
Definition log_ordered (t : Z) (s : Session) : Prop :=
  nondecreasing (timestamps s)
  /\ Forall (fun y => y <= t - recordingStartTime s) (timestamps s).

End SoundSpace.

(** ** The piano panel (component [Piano]) *)

Module Piano.

(** [keyboardMapping], an object literal: its own properties in
    insertion order, which is the order of [Object.keys] and
    [Object.values]. *)
Definition keyboardMapping : list (string * string) :=
  [ ("a", "C4"); ("s", "D4"); ("d", "E4"); ("f", "F4");
    ("g", "G4"); ("h", "A4"); ("j", "B4"); ("k", "C5");
    ("w", "C#4"); ("e", "D#4"); ("t", "F#4"); ("y", "G#4");
    ("u", "A#4") ]%string.

(** [keyboardMapping[key]], among the object's own properties; [None]
    is [undefined].  The source's lookup also finds what the object
    inherits from [Object.prototype]; of those names only [constructor]
    and [__proto__] are in lower case, as every looked-up key is. *)
Definition mapping (key : string) : option string :=
  snd <$> find (fun kv => String.eqb (fst kv) key) keyboardMapping.

(** [Object.keys(keyboardMapping).find(k => keyboardMapping[k] === note)] *)
Definition keyOf (n : string) : option string :=
  find (fun k => bool_decide (mapping k = Some n)) (fst <$> keyboardMapping).

(** The calls a handler makes to the outside. *)
Inductive Call :=
| ToneStart                                          (* await Tone.start() *)
| TriggerAttackRelease (n : string) (dur : string)   (* on synthRef.current *)
| OnNotePlay (n : string)                            (* the prop onNotePlay *)
| SetTimeout (ms : Z).

(** The state of the component.  [timers] holds the pending
    [setTimeout] callbacks, oldest first; each one, when it fires,
    deletes its note from [activeKeys]. *)
Record State := mkState {
  synthRef : bool;             (* synthRef.current is not null *)
  contextRunning : bool;       (* Tone.context.state === 'running' *)
  activeKeys : gset string;
  pressedKeys : gset string;
  timers : list string
}.

(** The component once its mount effect has built the synthesizer. *)
Definition mounted (running : bool) : State :=
  {| synthRef := true; contextRunning := running;
     activeKeys := ∅; pressedKeys := ∅; timers := [] |}.

Definition setActiveKeys (f : gset string -> gset string) (st : State) :=
  {| synthRef := synthRef st; contextRunning := contextRunning st;
     activeKeys := f (activeKeys st); pressedKeys := pressedKeys st;
     timers := timers st |}.

Definition setPressedKeys (f : gset string -> gset string) (st : State) :=
  {| synthRef := synthRef st; contextRunning := contextRunning st;
     activeKeys := activeKeys st; pressedKeys := f (pressedKeys st);
     timers := timers st |}.

Definition setTimers (f : list string -> list string) (st : State) :=
  {| synthRef := synthRef st; contextRunning := contextRunning st;
     activeKeys := activeKeys st; pressedKeys := pressedKeys st;
     timers := f (timers st) |}.

Definition setContextRunning (st : State) :=
  {| synthRef := synthRef st; contextRunning := true;
     activeKeys := activeKeys st; pressedKeys := pressedKeys st;
     timers := timers st |}.

(** [playNote].  When the audio context is not running the function
    first awaits [Tone.start()]; the rest of its body runs when that
    promise resolves, which is taken to happen before the next input
    event. *)
Definition playNote (n : string) (st : State) : State * list Call :=
  if negb (synthRef st) then (st, [])
  else
    let started := if contextRunning st then [] else [ToneStart] in
    let st1 := setContextRunning st in
    let st2 := setActiveKeys (fun prev => prev ∪ {[n]}) st1 in
    let st3 := setTimers (fun pending => pending ++ [n]) st2 in
    (st3, started ++ [TriggerAttackRelease n "8n"; OnNotePlay n;
                      SetTimeout 150]).

(** The callback given to [setTimeout] by [playNote n]. *)
Definition expire (n : string) (st : State) : State :=
  setActiveKeys (fun prev => prev ∖ {[n]}) st.

(** The keyboard listeners.  They are registered again whenever
    [pressedKeys] changes, so the set they read is the current one. *)
Definition handleKeyDown (eventKey : string) (st : State)
    : State * list Call :=
  let key := Js.toLowerCase eventKey in
  match mapping key with
  | Some n =>
      if Js.truthy n && negb (bool_decide (key ∈ pressedKeys st)) then
        playNote n (setPressedKeys (fun prev => prev ∪ {[key]}) st)
      else (st, [])
  | None => (st, [])
  end.

Definition handleKeyUp (eventKey : string) (st : State) : State :=
  let key := Js.toLowerCase eventKey in
  match mapping key with
  | Some n =>
      if Js.truthy n then
        setActiveKeys (fun prev => prev ∖ {[n]})
          (setPressedKeys (fun prev => prev ∖ {[key]}) st)
      else st
  | None => st
  end.

(** [onMouseDown] of a key button. *)
Definition handleKeyPress (n : string) (st : State) : State * list Call :=
  playNote n st.


(** Input events: the keyboard, the pointer, and the oldest pending
    timer firing. *)
Inductive Event :=
| KeyDown (eventKey : string)
| KeyUp (eventKey : string)
| MouseDown (n : string)
| Timeout.

Definition step (st : State) (e : Event) : State * list Call :=
  match e with
  | KeyDown k => handleKeyDown k st
  | KeyUp k => (handleKeyUp k st, [])
  | MouseDown n => handleKeyPress n st
  | Timeout =>
      match timers st with
      | [] => (st, [])
      | n :: rest => (expire n (setTimers (fun _ => rest) st), [])
      end
  end.

Definition run (st : State) (evs : list Event) : State :=
  fold_left (fun s e => fst (step s e)) evs st.

(** The note's timed window is open: a timer set when the note was
    triggered has not fired yet. *)
Definition windowOpen (st : State) (n : string) : bool :=
  bool_decide (n ∈ timers st).

(** The physical key [key] (in lower case) is down after the events
    [evs]: its last keyboard event was a key-down. *)
Definition keyHeld (evs : list Event) (key : string) : bool :=
  fold_left
    (fun held e =>
       match e with
       | KeyDown k => if String.eqb (Js.toLowerCase k) key then true else held
       | KeyUp k => if String.eqb (Js.toLowerCase k) key then false else held
       | _ => held
       end) evs false.


(** No event of the list releases the key [key]. *)
Definition noKeyUp (key : string) (evs : list Event) : Prop :=
  Forall (fun e => match e with
                   | KeyUp k => Js.toLowerCase k <> key
                   | _ => True
                   end) evs.

End Piano.

(** ** The drum panel (component [Drums]) *)

Module Drums.

Record Drum := mkDrum {
  name : string;
  key : string;
  color : string;
  note : string
}.

Definition drumSounds : list Drum :=
  [ mkDrum "Kick" "s" "from-red-500 to-red-600" "C2";
    mkDrum "Snare" "d" "from-orange-500 to-orange-600" "D2";
    mkDrum "Hi-Hat" "f" "from-yellow-500 to-yellow-600" "F#2";
    mkDrum "Crash" "g" "from-green-500 to-green-600" "A#2";
    mkDrum "Ride" "h" "from-blue-500 to-blue-600" "C3";
    mkDrum "Tom" "j" "from-purple-500 to-purple-600" "E3" ]%string.

(** The Tone.js classes of the voices. *)
Inductive Synth := MembraneSynth | MetalSynth | NoiseSynth.

(** The object the mount effect stores in [synthsRef.current]. *)
Definition mountedSynths : gmap string Synth :=
  <["Kick" := MembraneSynth]>
    (<["Snare" := NoiseSynth]>
      (<["Hi-Hat" := MetalSynth]>
        (<["Crash" := MetalSynth]>
          (<["Ride" := MetalSynth]>
            (<["Tom" := MembraneSynth]> ∅))))).

(** The calls a handler makes to the outside.  A noise voice is
    triggered without a note. *)
Inductive Call :=
| ToneStart
| TriggerAttackRelease (voice : string) (n : option string) (dur : string)
| OnNotePlay (n : string)
| SetTimeout (ms : Z).

(** The state of the component; [timers] as in the piano, holding drum
    names. *)
Record State := mkState {
  synthsRef : gmap string Synth;
  contextRunning : bool;
  activePads : gset string;
  pressedKeys : gset string;
  timers : list string
}.

Definition mounted (running : bool) : State :=
  {| synthsRef := mountedSynths; contextRunning := running;
     activePads := ∅; pressedKeys := ∅; timers := [] |}.

Definition setActivePads (f : gset string -> gset string) (st : State) :=
  {| synthsRef := synthsRef st; contextRunning := contextRunning st;
     activePads := f (activePads st); pressedKeys := pressedKeys st;
     timers := timers st |}.

Definition setPressedKeys (f : gset string -> gset string) (st : State) :=
  {| synthsRef := synthsRef st; contextRunning := contextRunning st;
     activePads := activePads st; pressedKeys := f (pressedKeys st);
     timers := timers st |}.

Definition setTimers (f : list string -> list string) (st : State) :=
  {| synthsRef := synthsRef st; contextRunning := contextRunning st;
     activePads := activePads st; pressedKeys := pressedKeys st;
     timers := f (timers st) |}.

Definition setContextRunning (st : State) :=
  {| synthsRef := synthsRef st; contextRunning := true;
     activePads := activePads st; pressedKeys := pressedKeys st;
     timers := timers st |}.

(** [playDrum]; the await of [Tone.start()] as in the piano. *)
Definition playDrum (drumName n : string) (st : State)
    : State * list Call :=
  match synthsRef st !! drumName with
  | None => (st, [])
  | Some synth =>
      let started := if contextRunning st then [] else [ToneStart] in
      let st1 := setContextRunning st in
      let st2 := setActivePads (fun prev => prev ∪ {[drumName]}) st1 in
      let trigger :=
        match synth with
        | NoiseSynth => TriggerAttackRelease drumName None "8n"
        | _ => TriggerAttackRelease drumName (Some n) "8n"
        end in
      let st3 := setTimers (fun pending => pending ++ [drumName]) st2 in
      (st3, started ++ [trigger; OnNotePlay (drumName +:+ "-" +:+ n);
                        SetTimeout 200])
  end.

Definition expire (drumName : string) (st : State) : State :=
  setActivePads (fun prev => prev ∖ {[drumName]}) st.

(** [drumSounds.find(d => d.key === key)] *)
Definition drumOfKey (k : string) : option Drum :=
  find (fun d => String.eqb (key d) k) drumSounds.

(** [drumSounds.find(d => d.name === drumName)] *)
Definition drumOfName (drumName : string) : option Drum :=
  find (fun d => String.eqb (name d) drumName) drumSounds.

Definition handleKeyDown (eventKey : string) (st : State)
    : State * list Call :=
  let k := Js.toLowerCase eventKey in
  match drumOfKey k with
  | Some drum =>
      if negb (bool_decide (k ∈ pressedKeys st)) then
        playDrum (name drum) (note drum)
          (setPressedKeys (fun prev => prev ∪ {[k]}) st)
      else (st, [])
  | None => (st, [])
  end.

Definition handleKeyUp (eventKey : string) (st : State) : State :=
  let k := Js.toLowerCase eventKey in
  match drumOfKey k with
  | Some drum =>
      setActivePads (fun prev => prev ∖ {[name drum]})
        (setPressedKeys (fun prev => prev ∖ {[k]}) st)
  | None => st
  end.

(** [onMouseDown] of a pad. *)
Definition handlePadClick (drumName n : string) (st : State)
    : State * list Call :=
  playDrum drumName n st.

Definition isPadActive (st : State) (drumName : string) : bool :=
  bool_decide (drumName ∈ activePads st)
  || match drumOfName drumName with
     | Some drum => bool_decide (key drum ∈ pressedKeys st)
     | None => false
     end.

Inductive Event :=
| KeyDown (eventKey : string)
| KeyUp (eventKey : string)
| MouseDown (drumName n : string)
| Timeout.

Definition step (st : State) (e : Event) : State * list Call :=
  match e with
  | KeyDown k => handleKeyDown k st
  | KeyUp k => (handleKeyUp k st, [])
  | MouseDown drumName n => handlePadClick drumName n st
  | Timeout =>
      match timers st with
      | [] => (st, [])
      | d :: rest => (expire d (setTimers (fun _ => rest) st), [])
      end
  end.

Definition run (st : State) (evs : list Event) : State :=
  fold_left (fun s e => fst (step s e)) evs st.

Definition windowOpen (st : State) (drumName : string) : bool :=
  bool_decide (drumName ∈ timers st).

Definition keyHeld (evs : list Event) (k : string) : bool :=
  fold_left
    (fun held e =>
       match e with
       | KeyDown k' => if String.eqb (Js.toLowerCase k') k then true else held
       | KeyUp k' => if String.eqb (Js.toLowerCase k') k then false else held
       | _ => held
       end) evs false.

(** Some key mapped to the pad is down after the events [evs]. *)
Definition padHeld (evs : list Event) (drumName : string) : bool :=
  existsb (fun d => String.eqb (name d) drumName && keyHeld evs (key d))
    drumSounds.

Definition noKeyUp (k : string) (evs : list Event) : Prop :=
  Forall (fun e => match e with
                   | KeyUp k' => Js.toLowerCase k' <> k
                   | _ => True
                   end) evs.

End Drums.

(** ** The log a recording session is meant to leave *)

Module SessionLog.
Import SoundSpace.

(** The calls of [onNotePlay] among the actions [l], in their order,
    each as the event it stands for in a recording started at [t0]: the
    instrument selected when the call is made ([i] at the start), the
    note, and the time since [t0]. *)
Fixpoint callsLog (t0 : Z) (i : Instrument) (l : list (Z * Action))
    : list NoteEvent :=
  match l with
  | [] => []
  | (_, SelectInstrument j) :: rest => callsLog t0 j rest
  | (u, NotePlay n) :: rest => mkNoteEvent i n (u - t0) :: callsLog t0 i rest
  | _ :: rest => callsLog t0 i rest
  end.

(** No action of the list starts a recording. *)
Definition noStart (l : list (Z * Action)) : Prop :=
  Forall (fun a => snd a <> StartRecording) l.

(** No action of the list starts or stops a recording. *)
Definition noStartStop (l : list (Z * Action)) : Prop :=
  Forall (fun a => snd a <> StartRecording /\ snd a <> StopRecording) l.

(** [`soundspace-recording-${now}.json`] read back: the number between
    the fixed prefix and suffix of a file name. *)
Definition parse_number (s : string) : option Z :=
  Z.of_int <$> NilZero.int_of_string s.

End SessionLog.

(** ** What a panel says and shows over a whole sequence of inputs *)

Module PianoTrace.
Import Piano.

(** All the calls made while the events [evs] are handled, in order. *)
Fixpoint calls (st : State) (evs : list Event) : list Call :=
  match evs with
  | [] => []
  | e :: rest => snd (step st e) ++ calls (fst (step st e)) rest
  end.

(** The arguments of the [onNotePlay] calls among [cs]. *)
Definition notesPlayed (cs : list Call) : list string :=
  omap (fun c => match c with OnNotePlay n => Some n | _ => None end) cs.

(** The notes a player means to play with the events [evs], which come
    after the events [before]: one for every pointer press, and one for
    every key-down of a mapped key that was up. *)
Fixpoint notesMeant (before evs : list Event) : list string :=
  match evs with
  | [] => []
  | e :: rest =>
      match e with
      | KeyDown k =>
          match mapping (Js.toLowerCase k) with
          | Some n => if keyHeld before (Js.toLowerCase k) then [] else [n]
          | None => []
          end
      | MouseDown n => [n]
      | _ => []
      end ++ notesMeant (before ++ [e]) rest
  end.

(** Every pending timer fires, with no other input in between. *)
Definition drain (st : State) : State :=
  run st (replicate (length (timers st)) Timeout).

End PianoTrace.

Module DrumsTrace.
Import Drums.

Fixpoint calls (st : State) (evs : list Event) : list Call :=
  match evs with
  | [] => []
  | e :: rest => snd (step st e) ++ calls (fst (step st e)) rest
  end.

Definition notesPlayed (cs : list Call) : list string :=
  omap (fun c => match c with OnNotePlay n => Some n | _ => None end) cs.

(** As for the piano; a pointer press passes the name and note of its
    pad, and only the six pads have a voice. *)
Fixpoint notesMeant (before evs : list Event) : list string :=
  match evs with
  | [] => []
  | e :: rest =>
      match e with
      | KeyDown k =>
          match drumOfKey (Js.toLowerCase k) with
          | Some d =>
              if keyHeld before (Js.toLowerCase k) then []
              else [name d +:+ "-" +:+ note d]
          | None => []
          end
      | MouseDown drumName n =>
          match mountedSynths !! drumName with
          | Some _ => [drumName +:+ "-" +:+ n]
          | None => []
          end
      | _ => []
      end ++ notesMeant (before ++ [e]) rest
  end.

Definition drain (st : State) : State :=
  run st (replicate (length (timers st)) Timeout).

End DrumsTrace.

(** ** The page: the controller with the panel it mounts *)

Module App.
Import SoundSpace.

(** The keys drawn by the piano, [whiteKeys] and [blackKeys]; [None] is
    the [null] that leaves a gap between the black keys. *)
Definition whiteKeys : list string :=
  ["C4"; "D4"; "E4"; "F4"; "G4"; "A4"; "B4"; "C5"]%string.

Definition blackKeys : list (option string) :=
  [Some "C#4"; Some "D#4"; None; Some "F#4"; Some "G#4"; Some "A#4"; None]
    %string.

(** The notes that have a button to press. *)
Definition keyButtons : list string := whiteKeys ++ omap id blackKeys.

(** The render of [SoundSpace] mounts the piano when [activeInstrument]
    is [piano] and the drum kit when it is [drums]. *)
Inductive Panel :=
| PianoPanel (st : Piano.State)
| DrumsPanel (st : Drums.State).

(** The page.  [listener] is the render of [SoundSpace] whose
    [handleNotePlay] the mounted panel's keyboard listeners call: the
    effect that registers them has [pressedKeys] as its only dependency,
    so they keep the [playNote] (or [playDrum]), and with it the
    [onNotePlay] prop, of the render in which [pressedKeys] last
    changed.  The [onMouseDown] handlers are made anew by every render and
    call the current [onNotePlay]. *)
Record State := mkState {
  session : Session;
  panel : Panel;
  listener : Session
}.

Definition mount (i : Instrument) (running : bool) : Panel :=
  match i with
  | piano => PianoPanel (Piano.mounted running)
  | drums => DrumsPanel (Drums.mounted running)
  end.

(** [Tone.context] is shared by the two panels. *)
Definition contextRunning (p : Panel) : bool :=
  match p with
  | PianoPanel st => Piano.contextRunning st
  | DrumsPanel st => Drums.contextRunning st
  end.

Definition instrumentOf (p : Panel) : Instrument :=
  match p with
  | PianoPanel _ => piano
  | DrumsPanel _ => drums
  end.

(** [i === j] on instruments. *)
Definition sameInstrument (i j : Instrument) : bool :=
  match i, j with
  | piano, piano | drums, drums => true
  | _, _ => false
  end.

(** The page as first rendered. *)
Definition initial (running : bool) : State :=
  {| session := SoundSpace.initial;
     panel := mount piano running;
     listener := SoundSpace.initial |}.

(** The calls of [onNotePlay] made by a panel's handler, passed to the
    [handleNotePlay] of render [r] at time [now]. *)
Definition deliver (r : Session) (now : Z) (ns : list string) (s : Session)
    : Session :=
  fold_left (fun s' n => handleNotePlay r n now s') ns s.

(** The keyboard handler calls [setPressedKeys]; the new set makes the
    effect register the listeners again. *)
Definition pianoRegisters (st : Piano.State) (down : bool) (k : string)
    : bool :=
  match Piano.mapping (Js.toLowerCase k) with
  | Some n =>
      Js.truthy n
      && (negb down
          || negb (bool_decide (Js.toLowerCase k ∈ Piano.pressedKeys st)))
  | None => false
  end.

Definition drumsRegisters (st : Drums.State) (down : bool) (k : string)
    : bool :=
  match Drums.drumOfKey (Js.toLowerCase k) with
  | Some _ =>
      negb down
      || negb (bool_decide (Js.toLowerCase k ∈ Drums.pressedKeys st))
  | None => false
  end.

(** A key-down ([down] true) or key-up on the window, at time [now]. *)
Definition keyboard (down : bool) (k : string) (now : Z) (a : State) : State :=
  match panel a with
  | PianoPanel st =>
      let r := Piano.step st (if down then Piano.KeyDown k else Piano.KeyUp k) in
      let s' := deliver (listener a) now (PianoTrace.notesPlayed (snd r))
                  (session a) in
      {| session := s';
         panel := PianoPanel (fst r);
         listener := if pianoRegisters st down k then s' else listener a |}
  | DrumsPanel st =>
      let r := Drums.step st (if down then Drums.KeyDown k else Drums.KeyUp k) in
      let s' := deliver (listener a) now (DrumsTrace.notesPlayed (snd r))
                  (session a) in
      {| session := s';
         panel := DrumsPanel (fst r);
         listener := if drumsRegisters st down k then s' else listener a |}
  end.

Inductive Event :=
| KeyDown (k : string)
| KeyUp (k : string)
| PianoMouseDown (n : string)     (* a key button of the piano *)
| DrumsMouseDown (i : nat)        (* the button of the i-th pad *)
| Timeout                         (* the oldest pending timer fires *)
| ClickInstrument (i : Instrument)
| ClickRecord
| ClickStop
| ClickDownload (iso : string).

(** One input at time [now].  A button that is not rendered cannot be
    pressed: the Record button shows only while not recording, the Stop
    button only while recording, and each panel's buttons only while it
    is mounted. *)
Definition step (a : State) (e : Z * Event) : State :=
  let now := fst e in
  match snd e with
  | KeyDown k => keyboard true k now a
  | KeyUp k => keyboard false k now a
  | PianoMouseDown n =>
      match panel a with
      | PianoPanel st =>
          if bool_decide (n ∈ keyButtons) then
            let r := Piano.step st (Piano.MouseDown n) in
            {| session := deliver (session a) now
                            (PianoTrace.notesPlayed (snd r)) (session a);
               panel := PianoPanel (fst r);
               listener := listener a |}
          else a
      | DrumsPanel _ => a
      end
  | DrumsMouseDown i =>
      match panel a, Drums.drumSounds !! i with
      | DrumsPanel st, Some d =>
          let r := Drums.step st (Drums.MouseDown (Drums.name d) (Drums.note d)) in
          {| session := deliver (session a) now
                          (DrumsTrace.notesPlayed (snd r)) (session a);
             panel := DrumsPanel (fst r);
             listener := listener a |}
      | _, _ => a
      end
  | Timeout =>
      {| session := session a;
         panel := match panel a with
                  | PianoPanel st => PianoPanel (fst (Piano.step st Piano.Timeout))
                  | DrumsPanel st => DrumsPanel (fst (Drums.step st Drums.Timeout))
                  end;
         listener := listener a |}
  | ClickInstrument i =>
      if sameInstrument i (activeInstrument (session a)) then a
      else
        let s' := setActiveInstrument i (session a) in
        {| session := s';
           panel := mount i (contextRunning (panel a));
           listener := s' |}
  | ClickRecord =>
      if isRecording (session a) then a
      else {| session := handleStartRecording now (session a);
              panel := panel a;
              listener := listener a |}
  | ClickStop =>
      if isRecording (session a)
      then {| session := handleStopRecording (session a);
              panel := panel a;
              listener := listener a |}
      else a
  | ClickDownload iso =>
      {| session := fst (exportRecording iso now (session a));
         panel := panel a;
         listener := listener a |}
  end.

Definition run (a : State) (l : list (Z * Event)) : State :=
  fold_left step l a.

(** The keyboard listeners hold the callback of the current render, as
    far as the callback goes: its two captured values are the
    session's. *)
Definition fresh (a : State) : Prop :=
  isRecording (listener a) = isRecording (session a)
  /\ activeInstrument (listener a) = activeInstrument (session a).

(** The string a panel passes to [onNotePlay] belongs to it: a note of
    the piano's keys, or name-note of a pad. *)
Definition noteOf (i : Instrument) (n : string) : Prop :=
  match i with
  | piano => n ∈ keyButtons
  | drums => n ∈ (fun d => Drums.name d +:+ "-" +:+ Drums.note d)
                   <$> Drums.drumSounds
  end.

Definition noRecord (l : list (Z * Event)) : Prop :=
  Forall (fun e => snd e <> ClickRecord) l.

(** The string a key-down of [k] has the mounted panel report: that of
    a mapped key that is not recorded as pressed. *)
Definition keyNote (p : Panel) (k : string) : option string :=
  match p with
  | PianoPanel st =>
      match Piano.mapping (Js.toLowerCase k) with
      | Some n =>
          if bool_decide (Js.toLowerCase k ∈ Piano.pressedKeys st) then None
          else Some n
      | None => None
      end
  | DrumsPanel st =>
      match Drums.drumOfKey (Js.toLowerCase k) with
      | Some d =>
          if bool_decide (Js.toLowerCase k ∈ Drums.pressedKeys st) then None
          else Some (Drums.name d +:+ "-" +:+ Drums.note d)
      | None => None
      end
  end.

(** What holds of the page at all times: the mounted panel is the one
    of the selected instrument and has its voices, and the callback the
    keyboard listeners hold was made for the selected instrument. *)
Definition wellFormed (a : State) : Prop :=
  match panel a with
  | PianoPanel st => Piano.synthRef st = true
  | DrumsPanel st => Drums.synthsRef st = Drums.mountedSynths
  end
  /\ instrumentOf (panel a) = activeInstrument (session a)
  /\ activeInstrument (listener a) = activeInstrument (session a).

(** The panel's mount effect has built its voices. *)
Definition ready (p : Panel) : Prop :=
  match p with
  | PianoPanel st => Piano.synthRef st = true
  | DrumsPanel st => Drums.synthsRef st = Drums.mountedSynths
  end.

End App.

(** ** A note's lit time: from its trigger to what ends it *)

Module PianoWindow.
Import Piano.

(** The event [e], arriving in state [st], triggers the note [n]: a
    pointer press of its key, or a key-down of a key mapped to it that is
    not recorded as pressed. *)
Definition triggers (st : State) (e : Event) (n : string) : Prop :=
  match e with
  | MouseDown m => m = n
  | KeyDown k =>
      mapping (Js.toLowerCase k) = Some n
      /\ Js.toLowerCase k ∉ pressedKeys st
  | _ => False
  end.

(** None of the events [evs], arriving from state [st] on, ends the lit
    time of [n]: none is a key-up of a key mapped to [n], and none is the
    expiry of a timer set for [n]. *)
Fixpoint undisturbed (n : string) (st : State) (evs : list Event) : Prop :=
  match evs with
  | [] => True
  | e :: rest =>
      match e with
      | KeyUp k => mapping (Js.toLowerCase k) <> Some n
      | Timeout => head (timers st) <> Some n
      | _ => True
      end
      /\ undisturbed n (fst (step st e)) rest
  end.

End PianoWindow.

Module DrumsWindow.
Import Drums.

(** As for the piano; a pointer press passes the name of its pad, and
    only a name with a voice is played. *)
Definition triggers (st : State) (e : Event) (nm : string) : Prop :=
  match e with
  | MouseDown m _ => m = nm /\ is_Some (synthsRef st !! m)
  | KeyDown k =>
      (exists d, drumOfKey (Js.toLowerCase k) = Some d /\ name d = nm)
      /\ Js.toLowerCase k ∉ pressedKeys st
  | _ => False
  end.

Fixpoint undisturbed (nm : string) (st : State) (evs : list Event) : Prop :=
  match evs with
  | [] => True
  | e :: rest =>
      match e with
      | KeyUp k =>
          forall d, drumOfKey (Js.toLowerCase k) = Some d -> name d <> nm
      | Timeout => head (timers st) <> Some nm
      | _ => True
      end
      /\ undisturbed nm (fst (step st e)) rest
  end.

End DrumsWindow.

(** ** Key values and the page's clock *)

Module Keys.

Definition isAscii (s : string) : bool :=
  forallb (fun c => (nat_of_ascii c <? 128)%nat) (list_ascii_of_string s).

(** A key value for which [Js.toLowerCase] and [Piano.mapping] are the
    source's [toLowerCase] and [keyboardMapping[key]]: ASCII characters
    only, and not, once lowered, one of the two lower-case names that the
    mapping object inherits. *)
Definition plainKey (k : string) : bool :=
  isAscii k
  && negb (String.eqb (Js.toLowerCase k) "constructor")
  && negb (String.eqb (Js.toLowerCase k) "__proto__").

Definition plainPiano (evs : list Piano.Event) : Prop :=
  Forall (fun e => match e with
                   | Piano.KeyDown k | Piano.KeyUp k => plainKey k = true
                   | _ => True
                   end) evs.

Definition plainPage (l : list (Z * App.Event)) : Prop :=
  Forall (fun e => match snd e with
                   | App.KeyDown k | App.KeyUp k => plainKey k = true
                   | _ => True
                   end) l.

(** The inputs of a list reach the page in the order of the list, none
    before time [t]: the clock readings never decrease. *)
Fixpoint chronological (t : Z) (l : list (Z * App.Event)) : Prop :=
  match l with
  | [] => True
  | (u, _) :: rest => t <= u /\ chronological u rest
  end.

End Keys.

(** * Properties of the session controller *)

Module SoundSpaceSpec.
Import SoundSpace.

(** The effect of a call of [handleNotePlay] on the log, whichever
    render made the callback. *)
Lemma handleNotePlay_log r n now s :
  recordedNotes (handleNotePlay r n now s) =
  recordedNotes s ++
    (if isRecording r
     then [mkNoteEvent (activeInstrument r) n (now - recordingStartTime s)]
     else []).
Proof.
  unfold handleNotePlay. destruct (isRecording r); simpl.
  - reflexivity.
  - now rewrite app_nil_r.
Qed.

Lemma handleNotePlay_frame r n now s :
  activeInstrument (handleNotePlay r n now s) = activeInstrument s
  /\ isRecording (handleNotePlay r n now s) = isRecording s
  /\ recordingStartTime (handleNotePlay r n now s) = recordingStartTime s.
Proof. unfold handleNotePlay. destruct (isRecording r); auto. Qed.

(** The callback of the current render, called while [isRecording] is
    true, appends exactly one event, made of the selected instrument,
    the given note and [now - startTime], at the end of the log; the
    events logged before keep their places and values, and nothing else
    of the session changes. *)
Theorem onNotePlay_appends_when_recording (s : Session) (n : string) (now : Z) :
  isRecording s = true ->
  recordedNotes (onNotePlay n now s) =
    recordedNotes s ++
      [ {| instrument := activeInstrument s;
           note := n;
           timestamp := now - recordingStartTime s |} ]
  /\ (forall i e, recordedNotes s !! i = Some e ->
                 recordedNotes (onNotePlay n now s) !! i = Some e)
  /\ length (recordedNotes (onNotePlay n now s))
     = S (length (recordedNotes s))
  /\ activeInstrument (onNotePlay n now s) = activeInstrument s
  /\ isRecording (onNotePlay n now s) = true
  /\ recordingStartTime (onNotePlay n now s) = recordingStartTime s.
Proof.
  intros Hrec. unfold onNotePlay.
  pose proof (handleNotePlay_log s n now s) as Hlog.
  pose proof (handleNotePlay_frame s n now s) as (Hi & Hr & Ht).
  rewrite Hrec in Hlog. rewrite Hlog, Hi, Hr, Ht.
  repeat split; try assumption.
  - intros i e He. now apply lookup_app_l_Some.
  - rewrite length_app. simpl. lia.
Qed.

Lemma onNotePlay_appends_when_recording_witness :
  recordedNotes
    (onNotePlay "C4" 1250
       (mkSession piano true [mkNoteEvent drums "Kick-C2" 100] 1000))
  = [mkNoteEvent drums "Kick-C2" 100; mkNoteEvent piano "C4" 250].
Proof.
  exact (proj1 (onNotePlay_appends_when_recording
                  (mkSession piano true [mkNoteEvent drums "Kick-C2" 100] 1000)
                  "C4" 1250 eq_refl)).
Defined.

(** The callback of the current render, called while [isRecording] is
    false, leaves the session, and so the log, exactly as it was. *)
Theorem onNotePlay_noop_when_not_recording (s : Session) (n : string) (now : Z) :
  isRecording s = false ->
  onNotePlay n now s = s
  /\ recordedNotes (onNotePlay n now s) = recordedNotes s.
Proof.
  intros Hrec. unfold onNotePlay, handleNotePlay. rewrite Hrec. auto.
Qed.

Lemma onNotePlay_noop_when_not_recording_witness :
  recordedNotes
    (onNotePlay "C4" 1250
       (mkSession piano false [mkNoteEvent drums "Kick-C2" 100] 1000))
  = [mkNoteEvent drums "Kick-C2" 100].
Proof.
  exact (proj2 (onNotePlay_noop_when_not_recording
                  (mkSession piano false [mkNoteEvent drums "Kick-C2" 100] 1000)
                  "C4" 1250 eq_refl)).
Defined.

(** C4: whatever the session was, also one already recording,
    [startRecording] at time [now] leaves it recording, with an empty
    log and [now] as its start time; the selected instrument stays. *)
Theorem startRecording_resets (s : Session) (now : Z) :
  isRecording (handleStartRecording now s) = true
  /\ recordedNotes (handleStartRecording now s) = []
  /\ recordingStartTime (handleStartRecording now s) = now
  /\ activeInstrument (handleStartRecording now s) = activeInstrument s.
Proof. repeat split. Qed.

(** C8: [stopRecording] turns [isRecording] off and keeps the log, the
    start time and the selected instrument as they were. *)
Theorem stopRecording_keeps_log (s : Session) :
  isRecording (handleStopRecording s) = false
  /\ recordedNotes (handleStopRecording s) = recordedNotes s
  /\ (forall i, recordedNotes (handleStopRecording s) !! i
                = recordedNotes s !! i)
  /\ recordingStartTime (handleStopRecording s) = recordingStartTime s
  /\ activeInstrument (handleStopRecording s) = activeInstrument s.
Proof. repeat split. Qed.

Lemma or_zero_id (v : Z) : Js.or_zero (Some v) = v.
Proof. unfold Js.or_zero. destruct (Z.eqb_spec v 0); congruence. Qed.

(** C3: for a log of length L > 0 the export is a document whose
    [notes] is the log itself (so of length L) and whose [duration] is
    the timestamp of the last logged event; for L = 0 nothing is
    produced.  The export is a total function: it raises nothing. *)
Theorem export_document (s : Session) (iso : string) (now : Z) :
  ((0 < length (recordedNotes s))%nat ->
   exists d,
     snd (exportRecording iso now s) = Some d
     /\ notes (content d) = recordedNotes s
     /\ length (notes (content d)) = length (recordedNotes s)
     /\ timestamp <$> last (recordedNotes s) = Some (duration (content d)))
  /\ (length (recordedNotes s) = 0%nat ->
      snd (exportRecording iso now s) = None).
Proof.
  unfold exportRecording, handleDownloadRecording. split.
  - intros Hlen.
    destruct (Nat.eqb_spec (length (recordedNotes s)) 0) as [E | _]; [lia |].
    unfold Js.last_elem.
    destruct (last (recordedNotes s)) as [e |] eqn:Hlast.
    + eexists. repeat split. cbn [snd content duration fmap option_fmap option_map].
      now rewrite or_zero_id.
    + apply last_None in Hlast. rewrite Hlast in Hlen. simpl in Hlen. lia.
  - intros Hlen. now rewrite Hlen.
Qed.

Lemma export_document_witness :
  (exists d,
     snd (exportRecording "2024-01-01T00:00:00.000Z" 1704067200000
            (mkSession piano false
               [mkNoteEvent piano "C4" 0; mkNoteEvent piano "E4" 480] 1000))
     = Some d
     /\ notes (content d)
        = [mkNoteEvent piano "C4" 0; mkNoteEvent piano "E4" 480]
     /\ length (notes (content d)) = 2%nat
     /\ Some 480 = Some (duration (content d)))
  /\ snd (exportRecording "2024-01-01T00:00:00.000Z" 1704067200000 initial)
     = None.
Proof.
  split.
  - apply (proj1 (export_document
                    (mkSession piano false
                       [mkNoteEvent piano "C4" 0; mkNoteEvent piano "E4" 480]
                       1000)
                    "2024-01-01T00:00:00.000Z" 1704067200000)).
    simpl. lia.
  - apply (proj2 (export_document initial
                    "2024-01-01T00:00:00.000Z" 1704067200000)).
    reflexivity.
Defined.

Lemma exportRecording_fst (s : Session) (iso : string) (now : Z) :
  fst (exportRecording iso now s) = s.
Proof.
  unfold exportRecording, handleDownloadRecording.
  now destruct (length (recordedNotes s) =? 0)%nat.
Qed.

(** C10: the export changes nothing of the session (log, recording
    flag, selected instrument, start time), so a second export, at any
    later time, delivers the same notes and duration. *)
Theorem export_leaves_session (s : Session) (iso : string) (now : Z) :
  fst (exportRecording iso now s) = s
  /\ recordedNotes (fst (exportRecording iso now s)) = recordedNotes s
  /\ isRecording (fst (exportRecording iso now s)) = isRecording s
  /\ activeInstrument (fst (exportRecording iso now s)) = activeInstrument s
  /\ recordingStartTime (fst (exportRecording iso now s))
     = recordingStartTime s
  /\ (forall iso' now',
       (fun d => (notes (content d), duration (content d)))
         <$> snd (exportRecording iso' now' (fst (exportRecording iso now s)))
       = (fun d => (notes (content d), duration (content d)))
           <$> snd (exportRecording iso now s)).
Proof.
  rewrite exportRecording_fst. repeat split.
  intros iso' now'. unfold exportRecording, handleDownloadRecording.
  now destruct (length (recordedNotes s) =? 0)%nat.
Qed.

(** Appending a number that is at least every number of a
    non-decreasing list keeps the list non-decreasing. *)
Lemma nondecreasing_snoc (l : list Z) (x : Z) :
  nondecreasing l -> Forall (fun y => y <= x) l -> nondecreasing (l ++ [x]).
Proof.
  intros Hl Hx i j a b Hij Hi Hj.
  destruct (decide (j < length l)%nat) as [Hlt | Hge].
  - rewrite lookup_app_l in Hi by lia. rewrite lookup_app_l in Hj by lia.
    eauto.
  - assert (b = x) as ->.
    { rewrite lookup_app_r in Hj by lia.
      apply list_lookup_singleton_Some in Hj as [_ ?]. congruence. }
    destruct (decide (i < length l)%nat) as [Hilt | Hige].
    + rewrite lookup_app_l in Hi by lia.
      rewrite Forall_lookup in Hx. eauto.
    + rewrite lookup_app_r in Hi by lia.
      apply list_lookup_singleton_Some in Hi as [_ ?]. lia.
Qed.

Lemma log_ordered_start (now : Z) (s : Session) :
  log_ordered now (handleStartRecording now s).
Proof.
  split; simpl.
  - intros i j x y _ Hi. destruct i; discriminate Hi.
  - constructor.
Qed.

Lemma log_ordered_later (t u : Z) (s : Session) :
  t <= u -> log_ordered t s -> log_ordered u s.
Proof.
  intros Htu [Hs Hb]. split; [assumption |].
  eapply Forall_impl; [exact Hb |]. simpl. intros; lia.
Qed.

Lemma log_ordered_notePlay (r : Session) (n : string) (t : Z) (s : Session) :
  log_ordered t s -> log_ordered t (handleNotePlay r n t s).
Proof.
  intros [Hs Hb]. unfold log_ordered, timestamps.
  rewrite handleNotePlay_log.
  destruct (handleNotePlay_frame r n t s) as (_ & _ & ->).
  destruct (isRecording r).
  - rewrite fmap_app. simpl. split.
    + now apply nondecreasing_snoc.
    + apply Forall_app. split; [assumption |]. repeat constructor. lia.
  - rewrite app_nil_r. now split.
Qed.

Lemma log_ordered_step (t : Z) (s : Session) (a : Action) :
  log_ordered t s -> log_ordered t (step s (t, a)).
Proof.
  intros H. destruct a as [i | | | n | iso]; simpl.
  - exact H.
  - apply log_ordered_start.
  - exact H.
  - now apply log_ordered_notePlay.
  - now rewrite exportRecording_fst.
Qed.

Lemma log_ordered_run (l : list (Z * Action)) :
  forall (t : Z) (s : Session),
    chronological t l -> log_ordered t s ->
    nondecreasing (timestamps (run s l)).
Proof.
  induction l as [| [u a] l IH]; intros t s Hc Hinv.
  - exact (proj1 Hinv).
  - destruct Hc as [Htu Hc]. simpl. apply (IH u); [assumption |].
    apply log_ordered_step. now apply (log_ordered_later t).
Qed.

(** The controller alone: after [startRecording] at time [t0],
    whatever calls of the current [onNotePlay] follow (and whatever else
    is asked of the controller meanwhile), made at clock readings that
    never decrease, the timestamps of the log are non-decreasing in log
    order. *)
Theorem timestamps_nondecreasing (s0 : Session) (t0 : Z)
    (l : list (Z * Action)) :
  chronological t0 l ->
  nondecreasing (timestamps (run (handleStartRecording t0 s0) l)).
Proof.
  intros Hc. apply (log_ordered_run l t0); [assumption |].
  apply log_ordered_start.
Qed.

Lemma timestamps_nondecreasing_witness :
  nondecreasing
    (timestamps
       (run (handleStartRecording 1000 initial)
          [(1100, NotePlay "C4"); (1100, NotePlay "E4");
           (1350, SelectInstrument drums); (1400, NotePlay "Kick-C2")])).
Proof.
  apply timestamps_nondecreasing. simpl. lia.
Defined.

End SoundSpaceSpec.

(** * Properties of the piano panel *)

Module PianoSpec.
Import Piano.

(** ** The key table *)

Lemma mapping_In (key n : string) :
  mapping key = Some n <-> In (key, n) keyboardMapping.
Proof.
  split.
  - unfold mapping. intros H.
    destruct (find _ keyboardMapping) as [[k v] |] eqn:Hf; [| discriminate].
    apply find_some in Hf as [Hin Heq]. cbn [fst] in Heq.
    apply String.eqb_eq in Heq. injection H as <-. now subst.
  - intros H. unfold keyboardMapping in H. cbn [In] in H.
    decompose [or] H; try contradiction;
      match goal with E : (_, _) = (_, _) |- _ =>
        injection E as <- <-; reflexivity end.
Qed.

(** Splits a fact [mapping key = Some n] into the thirteen rows of the
    table. *)
Ltac table H :=
  apply mapping_In in H; unfold keyboardMapping in H; cbn [In] in H;
  decompose [or] H; try contradiction;
  match goal with E : (_, _) = (_, _) |- _ => injection E as <- <- end.

Lemma mapping_truthy (key n : string) :
  mapping key = Some n -> Js.truthy n = true.
Proof. intros H. table H; reflexivity. Qed.


Lemma keyOf_Some (n key : string) :
  keyOf n = Some key -> mapping key = Some n.
Proof.
  unfold keyOf. intros H. apply find_some in H as [_ H].
  now apply bool_decide_eq_true in H.
Qed.



(** ** The handlers, case by case *)

Lemma playNote_pressedKeys (n : string) (st : State) :
  pressedKeys (fst (playNote n st)) = pressedKeys st.
Proof. unfold playNote. now destruct (synthRef st). Qed.

Lemma playNote_mounted (n : string) (st : State) :
  synthRef st = true ->
  playNote n st =
    ({| synthRef := true; contextRunning := true;
        activeKeys := activeKeys st ∪ {[n]};
        pressedKeys := pressedKeys st;
        timers := timers st ++ [n] |},
     (if contextRunning st then [] else [ToneStart])
       ++ [TriggerAttackRelease n "8n"; OnNotePlay n; SetTimeout 150]).
Proof.
  intros H.
  unfold playNote, setTimers, setActiveKeys, setContextRunning.
  cbn [synthRef contextRunning activeKeys pressedKeys timers].
  rewrite H. reflexivity.
Qed.

Lemma piano_handleKeyDown_unmapped (k : string) (st : State) :
  mapping (Js.toLowerCase k) = None -> handleKeyDown k st = (st, []).
Proof. intros H. unfold handleKeyDown. now rewrite H. Qed.

Lemma piano_handleKeyDown_pressed (k : string) (st : State) :
  Js.toLowerCase k ∈ pressedKeys st -> handleKeyDown k st = (st, []).
Proof.
  intros H. unfold handleKeyDown.
  destruct (mapping (Js.toLowerCase k)); [| reflexivity].
  rewrite (bool_decide_eq_true_2 _ H). now rewrite andb_false_r.
Qed.

Lemma piano_handleKeyDown_fresh (k n : string) (st : State) :
  mapping (Js.toLowerCase k) = Some n ->
  Js.toLowerCase k ∉ pressedKeys st ->
  handleKeyDown k st =
    playNote n (setPressedKeys (fun prev => prev ∪ {[Js.toLowerCase k]}) st).
Proof.
  intros Hm Hp. unfold handleKeyDown. rewrite Hm.
  rewrite (mapping_truthy _ _ Hm), (bool_decide_eq_false_2 _ Hp).
  reflexivity.
Qed.

Lemma handleKeyUp_unmapped (k : string) (st : State) :
  mapping (Js.toLowerCase k) = None -> handleKeyUp k st = st.
Proof. intros H. unfold handleKeyUp. now rewrite H. Qed.

Lemma handleKeyUp_mapped (k n : string) (st : State) :
  mapping (Js.toLowerCase k) = Some n ->
  handleKeyUp k st =
    {| synthRef := synthRef st; contextRunning := contextRunning st;
       activeKeys := activeKeys st ∖ {[n]};
       pressedKeys := pressedKeys st ∖ {[Js.toLowerCase k]};
       timers := timers st |}.
Proof.
  intros Hm. unfold handleKeyUp. rewrite Hm, (mapping_truthy _ _ Hm).
  reflexivity.
Qed.

(** ** The pressed set follows the keyboard *)

Lemma piano_pressedKeys_step (st : State) (e : Event) (key : string) :
  key ∈ pressedKeys (fst (step st e)) <->
  match e with
  | KeyDown k =>
      key ∈ pressedKeys st
      \/ (Js.toLowerCase k = key /\ is_Some (mapping key))
  | KeyUp k =>
      key ∈ pressedKeys st
      /\ ~ (Js.toLowerCase k = key /\ is_Some (mapping key))
  | _ => key ∈ pressedKeys st
  end.
Proof.
  destruct e as [k | k | n |]; cbn [step fst].
  - destruct (mapping (Js.toLowerCase k)) as [n |] eqn:Hm.
    + destruct (decide (Js.toLowerCase k ∈ pressedKeys st)) as [Hp | Hp].
      * rewrite piano_handleKeyDown_pressed by assumption. cbn [fst].
        split; [tauto |]. intros [H | [<- _]]; assumption.
      * rewrite (piano_handleKeyDown_fresh _ _ _ Hm Hp), playNote_pressedKeys.
        cbn [setPressedKeys pressedKeys]. rewrite elem_of_union, elem_of_singleton.
        split.
        -- intros [H | ->]; [tauto |]. right. split; [reflexivity | eauto].
        -- intros [H | [<- _]]; tauto.
    + rewrite piano_handleKeyDown_unmapped by assumption. cbn [fst].
      split; [tauto |]. intros [H | [<- [n Hn]]]; [assumption | congruence].
  - destruct (mapping (Js.toLowerCase k)) as [n |] eqn:Hm.
    + rewrite (handleKeyUp_mapped _ _ _ Hm). cbn [pressedKeys].
      rewrite elem_of_difference, elem_of_singleton. split.
      * intros [H Hne]. split; [assumption |]. intros [<- _]. congruence.
      * intros [H Hne]. split; [assumption |]. intros ->. apply Hne.
        split; [reflexivity | eauto].
    + rewrite handleKeyUp_unmapped by assumption. split; [| tauto].
      intros H. split; [assumption |]. intros [<- [n Hn]]. congruence.
  - unfold handleKeyPress. now rewrite playNote_pressedKeys.
  - destruct (timers st); reflexivity.
Qed.

Lemma piano_run_snoc (st : State) (evs : list Event) (e : Event) :
  run st (evs ++ [e]) = fst (step (run st evs) e).
Proof. unfold run. now rewrite fold_left_app. Qed.

Lemma piano_run_cons (st : State) (e : Event) (evs : list Event) :
  run st (e :: evs) = run (fst (step st e)) evs.
Proof. reflexivity. Qed.

Lemma piano_keyHeld_snoc (evs : list Event) (e : Event) (key : string) :
  keyHeld (evs ++ [e]) key =
  match e with
  | KeyDown k => if String.eqb (Js.toLowerCase k) key then true
                 else keyHeld evs key
  | KeyUp k => if String.eqb (Js.toLowerCase k) key then false
               else keyHeld evs key
  | _ => keyHeld evs key
  end.
Proof. unfold keyHeld. now rewrite fold_left_app. Qed.

(** A mapped key is in [pressedKeys] exactly when it is physically
    down. *)
Lemma piano_pressedKeys_held (running : bool) (evs : list Event) (key : string) :
  key ∈ pressedKeys (run (mounted running) evs)
  <-> is_Some (mapping key) /\ keyHeld evs key = true.
Proof.
  induction evs as [| e evs IH] using rev_ind.
  - cbn. split; [intros H; now apply not_elem_of_empty in H |].
    intros [_ H]. discriminate.
  - rewrite piano_run_snoc, piano_pressedKeys_step, piano_keyHeld_snoc.
    destruct e as [k | k | n |]; try exact IH.
    + rewrite IH. destruct (String.eqb_spec (Js.toLowerCase k) key); tauto.
    + rewrite IH. destruct (String.eqb_spec (Js.toLowerCase k) key);
        [| tauto].
      split; [tauto |]. intros [_ H]. discriminate.
Qed.


(** ** Key-down: the first press and its repeats *)



(** ** The visual-active predicate *)







End PianoSpec.

(** * Properties of the drum panel *)

Module DrumsSpec.
Import Drums.

(** ** The pad table *)

Lemma drumOfKey_In (k : string) (d : Drum) :
  drumOfKey k = Some d <-> In d drumSounds /\ key d = k.
Proof.
  split.
  - unfold drumOfKey. intros H. apply find_some in H as [Hin Heq].
    now apply String.eqb_eq in Heq.
  - intros [Hin <-]. unfold drumSounds in Hin. cbn [In] in Hin.
    decompose [or] Hin; try contradiction; subst d; reflexivity.
Qed.

Lemma drumOfName_In (nm : string) (d : Drum) :
  drumOfName nm = Some d <-> In d drumSounds /\ name d = nm.
Proof.
  split.
  - unfold drumOfName. intros H. apply find_some in H as [Hin Heq].
    now apply String.eqb_eq in Heq.
  - intros [Hin <-]. unfold drumSounds in Hin. cbn [In] in Hin.
    decompose [or] Hin; try contradiction; subst d; reflexivity.
Qed.

(** Splits a fact [In d drumSounds] into the six rows of the table. *)
Ltac table H :=
  unfold drumSounds in H; cbn [In] in H;
  decompose [or] H; try contradiction; subst.

(** The mount effect builds a voice for every pad. *)
Lemma mountedSynths_drum (d : Drum) :
  In d drumSounds -> is_Some (mountedSynths !! name d).
Proof. intros H. table H; vm_compute; eauto. Qed.

(** ** The handlers, case by case *)

Lemma playDrum_pressedKeys (nm n : string) (st : State) :
  pressedKeys (fst (playDrum nm n st)) = pressedKeys st.
Proof. unfold playDrum. now destruct (synthsRef st !! nm). Qed.

Lemma playDrum_mounted (nm n : string) (synth : Synth) (st : State) :
  synthsRef st !! nm = Some synth ->
  playDrum nm n st =
    ({| synthsRef := synthsRef st; contextRunning := true;
        activePads := activePads st ∪ {[nm]};
        pressedKeys := pressedKeys st;
        timers := timers st ++ [nm] |},
     (if contextRunning st then [] else [ToneStart])
       ++ [match synth with
           | NoiseSynth => TriggerAttackRelease nm None "8n"
           | _ => TriggerAttackRelease nm (Some n) "8n"
           end;
           OnNotePlay (nm +:+ "-" +:+ n); SetTimeout 200]).
Proof. intros H. unfold playDrum. rewrite H. reflexivity. Qed.

Lemma drums_handleKeyDown_unmapped (k : string) (st : State) :
  drumOfKey (Js.toLowerCase k) = None -> handleKeyDown k st = (st, []).
Proof. intros H. unfold handleKeyDown. now rewrite H. Qed.

Lemma drums_handleKeyDown_pressed (k : string) (st : State) :
  Js.toLowerCase k ∈ pressedKeys st -> handleKeyDown k st = (st, []).
Proof.
  intros H. unfold handleKeyDown.
  destruct (drumOfKey (Js.toLowerCase k)); [| reflexivity].
  now rewrite (bool_decide_eq_true_2 _ H).
Qed.

Lemma drums_handleKeyDown_fresh (k : string) (d : Drum) (st : State) :
  drumOfKey (Js.toLowerCase k) = Some d ->
  Js.toLowerCase k ∉ pressedKeys st ->
  handleKeyDown k st =
    playDrum (name d) (note d)
      (setPressedKeys (fun prev => prev ∪ {[Js.toLowerCase k]}) st).
Proof.
  intros Hm Hp. unfold handleKeyDown.
  now rewrite Hm, (bool_decide_eq_false_2 _ Hp).
Qed.

(** ** The pressed set follows the keyboard *)

Lemma drums_pressedKeys_step (st : State) (e : Event) (k : string) :
  k ∈ pressedKeys (fst (step st e)) <->
  match e with
  | KeyDown k' =>
      k ∈ pressedKeys st
      \/ (Js.toLowerCase k' = k /\ is_Some (drumOfKey k))
  | KeyUp k' =>
      k ∈ pressedKeys st
      /\ ~ (Js.toLowerCase k' = k /\ is_Some (drumOfKey k))
  | _ => k ∈ pressedKeys st
  end.
Proof.
  destruct e as [k' | k' | nm n |]; cbn [step fst].
  - destruct (drumOfKey (Js.toLowerCase k')) as [d |] eqn:Hm.
    + destruct (decide (Js.toLowerCase k' ∈ pressedKeys st)) as [Hp | Hp].
      * rewrite drums_handleKeyDown_pressed by assumption. cbn [fst].
        split; [tauto |]. intros [H | [<- _]]; assumption.
      * rewrite (drums_handleKeyDown_fresh _ _ _ Hm Hp), playDrum_pressedKeys.
        cbn [setPressedKeys pressedKeys].
        rewrite elem_of_union, elem_of_singleton. split.
        -- intros [H | ->]; [tauto |]. right. split; [reflexivity | eauto].
        -- intros [H | [<- _]]; tauto.
    + rewrite drums_handleKeyDown_unmapped by assumption. cbn [fst].
      split; [tauto |]. intros [H | [<- [d Hd]]]; [assumption | congruence].
  - unfold handleKeyUp.
    destruct (drumOfKey (Js.toLowerCase k')) as [d |] eqn:Hm.
    + cbn [setActivePads setPressedKeys pressedKeys].
      rewrite elem_of_difference, elem_of_singleton. split.
      * intros [H Hne]. split; [assumption |]. intros [<- _]. congruence.
      * intros [H Hne]. split; [assumption |]. intros ->. apply Hne.
        split; [reflexivity | eauto].
    + split; [| tauto].
      intros H. split; [assumption |]. intros [<- [d Hd]]. congruence.
  - unfold handlePadClick. now rewrite playDrum_pressedKeys.
  - destruct (timers st); reflexivity.
Qed.

Lemma drums_run_snoc (st : State) (evs : list Event) (e : Event) :
  run st (evs ++ [e]) = fst (step (run st evs) e).
Proof. unfold run. now rewrite fold_left_app. Qed.

Lemma drums_run_cons (st : State) (e : Event) (evs : list Event) :
  run st (e :: evs) = run (fst (step st e)) evs.
Proof. reflexivity. Qed.

Lemma drums_keyHeld_snoc (evs : list Event) (e : Event) (k : string) :
  keyHeld (evs ++ [e]) k =
  match e with
  | KeyDown k' => if String.eqb (Js.toLowerCase k') k then true
                  else keyHeld evs k
  | KeyUp k' => if String.eqb (Js.toLowerCase k') k then false
                else keyHeld evs k
  | _ => keyHeld evs k
  end.
Proof. unfold keyHeld. now rewrite fold_left_app. Qed.

Lemma drums_pressedKeys_held (running : bool) (evs : list Event) (k : string) :
  k ∈ pressedKeys (run (mounted running) evs)
  <-> is_Some (drumOfKey k) /\ keyHeld evs k = true.
Proof.
  induction evs as [| e evs IH] using rev_ind.
  - cbn. split; [intros H; now apply not_elem_of_empty in H |].
    intros [_ H]. discriminate.
  - rewrite drums_run_snoc, drums_pressedKeys_step, drums_keyHeld_snoc.
    destruct e as [k' | k' | nm n |]; try exact IH.
    + rewrite IH. destruct (String.eqb_spec (Js.toLowerCase k') k); tauto.
    + rewrite IH. destruct (String.eqb_spec (Js.toLowerCase k') k);
        [| tauto].
      split; [tauto |]. intros [_ H]. discriminate.
Qed.


Lemma synthsRef_step (st : State) (e : Event) :
  synthsRef (fst (step st e)) = synthsRef st.
Proof.
  assert (Hplay : forall nm n s,
             synthsRef (fst (playDrum nm n s)) = synthsRef s).
  { intros nm n s. unfold playDrum. now destruct (synthsRef s !! nm). }
  destruct e as [k | k | nm n |]; cbn [step fst].
  - unfold handleKeyDown. destruct (drumOfKey _); [| reflexivity].
    destruct (negb _); [| reflexivity]. now rewrite Hplay.
  - unfold handleKeyUp. now destruct (drumOfKey _).
  - apply Hplay.
  - now destruct (timers st).
Qed.

Lemma synthsRef_run (evs : list Event) :
  forall st, synthsRef (run st evs) = synthsRef st.
Proof.
  induction evs as [| e evs IH]; intros st; [reflexivity |].
  now rewrite drums_run_cons, IH, synthsRef_step.
Qed.

(** ** Key-down: the first press and its repeats *)

Lemma drums_first_keyDown (st : State) (k : string) (d : Drum) :
  synthsRef st = mountedSynths ->
  drumOfKey (Js.toLowerCase k) = Some d ->
  Js.toLowerCase k ∉ pressedKeys st ->
  step st (KeyDown k) =
    ({| synthsRef := mountedSynths; contextRunning := true;
        activePads := activePads st ∪ {[name d]};
        pressedKeys := pressedKeys st ∪ {[Js.toLowerCase k]};
        timers := timers st ++ [name d] |},
     (if contextRunning st then [] else [ToneStart])
       ++ [match mountedSynths !! name d with
           | Some NoiseSynth => TriggerAttackRelease (name d) None "8n"
           | _ => TriggerAttackRelease (name d) (Some (note d)) "8n"
           end;
           OnNotePlay (name d +:+ "-" +:+ note d); SetTimeout 200]).
Proof.
  intros Hs Hm Hp. cbn [step].
  rewrite (drums_handleKeyDown_fresh _ _ _ Hm Hp).
  destruct (mountedSynths_drum d) as [synth Hsynth];
    [now apply drumOfKey_In in Hm |].
  rewrite (playDrum_mounted _ _ synth)
    by (cbn [setPressedKeys synthsRef]; now rewrite Hs).
  cbn [setPressedKeys synthsRef contextRunning activePads pressedKeys timers].
  now rewrite Hs, Hsynth.
Qed.


(** ** The visual-active predicate *)


Lemma isPadActive_iff (st : State) (nm : string) :
  isPadActive st nm = true <->
  nm ∈ activePads st
  \/ exists d, In d drumSounds /\ name d = nm /\ key d ∈ pressedKeys st.
Proof.
  unfold isPadActive. rewrite orb_true_iff, bool_decide_eq_true.
  split; (intros [H | H]; [now left | right]).
  - destruct (drumOfName nm) as [d |] eqn:Hd; [| discriminate].
    apply bool_decide_eq_true in H. apply drumOfName_In in Hd as [Hin Hn].
    eauto.
  - destruct H as (d & Hin & Hn & Hp).
    rewrite (proj2 (drumOfName_In nm d)) by auto.
    now apply bool_decide_eq_true.
Qed.

Lemma padHeld_iff (evs : list Event) (nm : string) :
  padHeld evs nm = true <->
  exists d, In d drumSounds /\ name d = nm /\ keyHeld evs (key d) = true.
Proof.
  unfold padHeld. rewrite existsb_exists. split.
  - intros (d & Hin & H). apply andb_true_iff in H as [Hn Hh].
    apply String.eqb_eq in Hn. eauto.
  - intros (d & Hin & Hn & Hh). exists d. split; [assumption |].
    rewrite Hh, andb_true_r. now apply String.eqb_eq.
Qed.

(** A pad is in [activePads] only while one of its timers is pending. *)
Lemma activePads_step (st : State) (e : Event) :
  (forall nm, nm ∈ activePads st -> nm ∈ timers st) ->
  forall nm,
    nm ∈ activePads (fst (step st e)) -> nm ∈ timers (fst (step st e)).
Proof.
  intros Inv nm.
  assert (Hplay : forall m n s,
             (forall nm, nm ∈ activePads s -> nm ∈ timers s) ->
             nm ∈ activePads (fst (playDrum m n s)) ->
             nm ∈ timers (fst (playDrum m n s))).
  { intros m n s Hs. unfold playDrum.
    destruct (synthsRef s !! m); cbn; [| apply Hs].
    rewrite elem_of_union, elem_of_singleton, elem_of_app,
      list_elem_of_singleton.
    intros [H | ->]; [left; now apply Hs | now right]. }
  destruct e as [k | k | m n |]; cbn [step fst].
  - unfold handleKeyDown. destruct (drumOfKey (Js.toLowerCase k)) as [d |];
      [| apply Inv].
    destruct (negb _); [| apply Inv].
    apply Hplay. exact Inv.
  - unfold handleKeyUp. destruct (drumOfKey (Js.toLowerCase k)) as [d |];
      [| apply Inv].
    cbn. rewrite elem_of_difference. intros [H _]. now apply Inv.
  - now apply Hplay.
  - destruct (timers st) as [| m rest] eqn:Ht; cbn; [rewrite Ht; apply Inv |].
    rewrite elem_of_difference, elem_of_singleton. intros [H Hne].
    apply Inv in H. apply elem_of_cons in H as [-> | H];
      [contradiction | assumption].
Qed.




End DrumsSpec.

(** * A triggered note stays lit until released or timed out *)

Module WindowSpec.








End WindowSpec.

(** * The panels' contract: key repeat, the active display, the kick pad *)

Module PanelSpec.



Lemma kick_voice : Drums.mountedSynths !! "Kick" = Some Drums.MembraneSynth.
Proof. vm_compute. reflexivity. Qed.

(** C9: in the mounted drum panel, when the key [s] is not recorded as
    pressed, a key-down of [s] triggers the Kick voice (with its note
    C2) and calls [onNotePlay] with the string Kick-C2; the key is
    recorded as pressed and the pad is marked active. *)
Theorem kick_keyDown (st : Drums.State) :
  Drums.synthsRef st = Drums.mountedSynths ->
  "s" ∉ Drums.pressedKeys st ->
  Drums.step st (Drums.KeyDown "s") =
    ({| Drums.synthsRef := Drums.mountedSynths;
        Drums.contextRunning := true;
        Drums.activePads := Drums.activePads st ∪ {["Kick"]};
        Drums.pressedKeys := Drums.pressedKeys st ∪ {["s"]};
        Drums.timers := Drums.timers st ++ ["Kick"] |},
     (if Drums.contextRunning st then [] else [Drums.ToneStart])
       ++ [Drums.TriggerAttackRelease "Kick" (Some "C2") "8n";
           Drums.OnNotePlay "Kick-C2";
           Drums.SetTimeout 200]).
Proof.
  intros Hs Hp.
  rewrite (DrumsSpec.drums_first_keyDown st "s"
             (Drums.mkDrum "Kick" "s" "from-red-500 to-red-600" "C2")
             Hs eq_refl Hp).
  cbn [Drums.name Drums.note]. rewrite kick_voice. reflexivity.
Qed.

Lemma kick_keyDown_witness :
  snd (Drums.step (Drums.mounted true) (Drums.KeyDown "s")) =
    [Drums.TriggerAttackRelease "Kick" (Some "C2") "8n";
     Drums.OnNotePlay "Kick-C2"; Drums.SetTimeout 200].
Proof.
  rewrite (kick_keyDown (Drums.mounted true)).
  - reflexivity.
  - reflexivity.
  - apply (bool_decide_unpack _). vm_compute. reflexivity.
Defined.




End PanelSpec.

(** * More on the session controller: the log over a whole session *)

Module SoundSpaceExtra.
Import SoundSpace SessionLog.

Lemma run_recording_log (l : list (Z * Action)) :
  forall s : Session,
    isRecording s = true -> noStartStop l ->
    recordedNotes (run s l) =
      recordedNotes s
        ++ callsLog (recordingStartTime s) (activeInstrument s) l.
Proof.
  induction l as [| [u a] l IH]; intros s Hrec Hno.
  - simpl. now rewrite app_nil_r.
  - apply Forall_cons in Hno as [[Hs Hp] Hno]. cbn [snd] in Hs, Hp.
    change (run s ((u, a) :: l)) with (run (step s (u, a)) l).
    destruct a as [j | | | n | iso]; try congruence.
    + rewrite IH by assumption. reflexivity.
    + destruct (SoundSpaceSpec.handleNotePlay_frame s n u s) as (Hi & Hr & Ht).
      cbn [step]. unfold onNotePlay.
      rewrite IH by (assumption || congruence).
      rewrite SoundSpaceSpec.handleNotePlay_log, Hi, Ht, Hrec.
      now rewrite <- app_assoc.
    + cbn [step]. rewrite SoundSpaceSpec.exportRecording_fst.
      now rewrite IH.
Qed.

(** X1: between a start and the next stop, the calls made through the
    [onNotePlay] of the current render (as the pointer handlers make
    them) are logged exactly, in call order, each tagged with the
    instrument selected at the time of the call and stamped with the time
    since the start. *)
Theorem log_is_calls_in_order (s0 : Session) (t0 : Z) (l : list (Z * Action)) :
  noStartStop l ->
  recordedNotes (run (handleStartRecording t0 s0) l)
  = callsLog t0 (activeInstrument s0) l.
Proof.
  intros Hno. now rewrite run_recording_log.
Qed.

Lemma log_is_calls_in_order_witness :
  recordedNotes
    (run (handleStartRecording 1000 initial)
       [(1100, NotePlay "C4"); (1200, SelectInstrument drums);
        (1200, DownloadRecording "2024-01-01T00:00:00.000Z");
        (1350, NotePlay "Kick-C2")])
  = [mkNoteEvent piano "C4" 100; mkNoteEvent drums "Kick-C2" 350].
Proof.
  apply (log_is_calls_in_order initial 1000).
  repeat constructor; discriminate.
Defined.

(** What every action keeps true at time [t]: the recording did not
    start after [t], and no logged timestamp is negative. *)
Lemma nonneg_step (t : Z) (s : Session) (a : Action) :
  recordingStartTime s <= t
  /\ Forall (fun e => 0 <= timestamp e) (recordedNotes s) ->
  recordingStartTime (step s (t, a)) <= t
  /\ Forall (fun e => 0 <= timestamp e) (recordedNotes (step s (t, a))).
Proof.
  intros [Ht Hl]. destruct a as [j | | | n | iso]; cbn [step].
  - now split.
  - split; [reflexivity | constructor].
  - now split.
  - unfold onNotePlay.
    destruct (SoundSpaceSpec.handleNotePlay_frame s n t s) as (_ & _ & ->).
    split; [assumption |]. rewrite SoundSpaceSpec.handleNotePlay_log.
    apply Forall_app. split; [assumption |].
    destruct (isRecording s); repeat constructor. cbn. lia.
  - rewrite SoundSpaceSpec.exportRecording_fst. now split.
Qed.

Lemma nonneg_run (l : list (Z * Action)) :
  forall (t : Z) (s : Session),
    chronological t l ->
    recordingStartTime s <= t
    /\ Forall (fun e => 0 <= timestamp e) (recordedNotes s) ->
    Forall (fun e => 0 <= timestamp e) (recordedNotes (run s l)).
Proof.
  induction l as [| [u a] l IH]; intros t s Hc Hinv.
  - exact (proj2 Hinv).
  - destruct Hc as [Htu Hc].
    change (run s ((u, a) :: l)) with (run (step s (u, a)) l).
    apply (IH u); [assumption |]. apply nonneg_step.
    destruct Hinv. split; [lia | assumption].
Qed.

(** X2: after [startRecording] at [t0], whatever is done at clock
    readings that never decrease (restarts included), no logged timestamp
    is negative. *)
Theorem timestamps_nonnegative (s0 : Session) (t0 : Z)
    (l : list (Z * Action)) :
  chronological t0 l ->
  Forall (fun e => 0 <= timestamp e)
    (recordedNotes (run (handleStartRecording t0 s0) l)).
Proof.
  intros Hc. apply (nonneg_run l t0); [assumption |].
  split; [reflexivity | constructor].
Qed.

Lemma timestamps_nonnegative_witness :
  Forall (fun e => 0 <= timestamp e)
    (recordedNotes
       (run (handleStartRecording 1000 initial)
          [(1000, NotePlay "C4"); (1400, StartRecording);
           (1400, NotePlay "E4"); (1500, NotePlay "G4")])).
Proof.
  apply timestamps_nonnegative. simpl. lia.
Defined.

(** X3: once a recording is stopped the log is frozen: until the next
    [startRecording], no action (calls of [onNotePlay], instrument
    changes, exports, further stops) changes it. *)
Theorem log_frozen_after_stop (s : Session) (l : list (Z * Action)) :
  isRecording s = false ->
  noStart l ->
  recordedNotes (run s l) = recordedNotes s
  /\ isRecording (run s l) = false.
Proof.
  revert s. induction l as [| [u a] l IH]; intros s Hrec Hno; [now split |].
  apply Forall_cons in Hno as [Ha Hno]. cbn [snd] in Ha.
  change (run s ((u, a) :: l)) with (run (step s (u, a)) l).
  assert (Hstep : recordedNotes (step s (u, a)) = recordedNotes s
                  /\ isRecording (step s (u, a)) = false).
  { destruct a as [j | | | n | iso]; try congruence; cbn [step].
    - now split.
    - now split.
    - unfold onNotePlay, handleNotePlay. now rewrite Hrec.
    - now rewrite SoundSpaceSpec.exportRecording_fst. }
  destruct Hstep as [Hlog Hoff].
  destruct (IH _ Hoff Hno) as [-> ->]. now split.
Qed.

Lemma log_frozen_after_stop_witness :
  recordedNotes
    (run (mkSession piano false [mkNoteEvent piano "C4" 100] 1000)
       [(2000, NotePlay "E4"); (2100, SelectInstrument drums);
        (2200, NotePlay "Kick-C2"); (2300, StopRecording)])
  = [mkNoteEvent piano "C4" 100].
Proof.
  apply (log_frozen_after_stop
           (mkSession piano false [mkNoteEvent piano "C4" 100] 1000)).
  - reflexivity.
  - repeat constructor; discriminate.
Defined.

(** X4: short of a new [startRecording], the log only grows at its end:
    what was logged stays where it is, unchanged. *)
Theorem log_append_only (s : Session) (l : list (Z * Action)) :
  noStart l ->
  recordedNotes s `prefix_of` recordedNotes (run s l).
Proof.
  revert s. induction l as [| [u a] l IH]; intros s Hno; [reflexivity |].
  apply Forall_cons in Hno as [Ha Hno]. cbn [snd] in Ha.
  change (run s ((u, a) :: l)) with (run (step s (u, a)) l).
  etransitivity; [| apply IH; assumption].
  destruct a as [j | | | n | iso]; try congruence; cbn [step];
    try reflexivity.
  - unfold onNotePlay. rewrite SoundSpaceSpec.handleNotePlay_log.
    now apply prefix_app_r.
  - now rewrite SoundSpaceSpec.exportRecording_fst.
Qed.

Lemma log_append_only_witness :
  [mkNoteEvent piano "C4" 100]
  `prefix_of`
  recordedNotes
    (run (mkSession piano true [mkNoteEvent piano "C4" 100] 1000)
       [(1200, NotePlay "E4"); (1300, StopRecording); (1400, NotePlay "G4")]).
Proof.
  apply (log_append_only
           (mkSession piano true [mkNoteEvent piano "C4" 100] 1000)).
  repeat constructor; discriminate.
Defined.

Lemma exportRecording_Some (s : Session) (iso : string) (now : Z)
    (d : Download) :
  snd (exportRecording iso now s) = Some d ->
  notes (content d) = recordedNotes s
  /\ last (recordedNotes s) <> None
  /\ timestamp <$> last (recordedNotes s) = Some (duration (content d))
  /\ download d
     = "soundspace-recording-" +:+ Js.number_to_string now +:+ ".json".
Proof.
  unfold exportRecording, handleDownloadRecording.
  destruct (Nat.eqb_spec (length (recordedNotes s)) 0) as [E | Hne];
    [discriminate |].
  cbn [snd]. intros [= <-]. cbn [content notes duration download].
  unfold Js.last_elem.
  destruct (last (recordedNotes s)) as [e |] eqn:Hlast.
  - cbn [fmap option_fmap option_map]. rewrite SoundSpaceSpec.or_zero_id.
    repeat split. discriminate.
  - apply last_None in Hlast. rewrite Hlast in Hne. now contradict Hne.
Qed.

Lemma nondecreasing_last (l : list Z) (x : Z) :
  nondecreasing l -> last l = Some x -> Forall (fun y => y <= x) l.
Proof.
  intros Hl Hlast. rewrite last_lookup in Hlast.
  apply Forall_lookup. intros i y Hi.
  apply (Hl i (pred (length l)) y x); [| assumption | assumption].
  apply lookup_lt_Some in Hi. lia.
Qed.

(** X5: the [duration] of the document exported after a recording
    (started at [t0], everything done at clock readings that never
    decrease) is the largest timestamp of its notes, and no timestamp is
    negative: every note lies within [0, duration]. *)
Theorem export_duration_bounds (s0 : Session) (t0 : Z)
    (l : list (Z * Action)) (iso : string) (now : Z) (d : Download) :
  chronological t0 l ->
  snd (exportRecording iso now (run (handleStartRecording t0 s0) l)) = Some d ->
  Forall (fun e => 0 <= timestamp e <= duration (content d))
    (notes (content d)).
Proof.
  intros Hc Hd. apply exportRecording_Some in Hd as (Hn & _ & Hlast & _).
  rewrite Hn. apply Forall_and. split.
  - now apply (nonneg_run l t0); [| split; [reflexivity | constructor]].
  - assert (Hs : nondecreasing
                   (timestamps (run (handleStartRecording t0 s0) l))).
    { apply (SoundSpaceSpec.log_ordered_run l t0); [assumption |].
      apply SoundSpaceSpec.log_ordered_start. }
    unfold timestamps in Hs.
    rewrite <- fmap_last in Hlast.
    pose proof (nondecreasing_last _ _ Hs Hlast) as Hall.
    rewrite Forall_fmap in Hall. exact Hall.
Qed.

Lemma export_duration_bounds_witness :
  Forall (fun e => 0 <= timestamp e <= 400)
    [mkNoteEvent piano "C4" 100; mkNoteEvent piano "E4" 400].
Proof.
  apply (export_duration_bounds initial 1000
           [(1100, NotePlay "C4"); (1400, NotePlay "E4"); (1500, StopRecording)]
           "2024-01-01T00:00:00.000Z" 1704067200000
           (mkDownload
              (mkRecording
                 "SoundSpace Recording - 2024-01-01T00:00:00.000Z"
                 [mkNoteEvent piano "C4" 100; mkNoteEvent piano "E4" 400] 400)
              "soundspace-recording-1704067200000.json")).
  - simpl. lia.
  - reflexivity.
Defined.

(** ** The file name *)

Lemma number_to_string_parse (n : Z) :
  parse_number (Js.number_to_string n) = Some n.
Proof.
  unfold parse_number, Js.number_to_string.
  rewrite NilZero.isi.
  - cbn. now rewrite DecimalZ.of_to.
  - destruct n; cbn; try discriminate.
    intros [= H]. now apply DecimalPos.Unsigned.to_uint_nonnil in H.
  - destruct n; cbn; try discriminate.
    intros [= H]. now apply DecimalPos.Unsigned.to_uint_nonnil in H.
Qed.

Lemma append_length (a b : string) :
  String.length (a +:+ b) = (String.length a + String.length b)%nat.
Proof. induction a as [| c a IH]; simpl; [reflexivity | now f_equal]. Qed.

Lemma append_cancel_r (z x y : string) : x +:+ z = y +:+ z -> x = y.
Proof.
  revert y. induction x as [| c x IH]; intros [| c' y] H.
  - reflexivity.
  - apply (f_equal String.length) in H.
    rewrite !append_length in H. simpl in H. lia.
  - apply (f_equal String.length) in H.
    rewrite !append_length in H. simpl in H. lia.
  - simpl in H. injection H as -> H. f_equal. now apply IH.
Qed.

(** X6: the number in an export's file name reads back as the time of
    the export, so two exports made at different milliseconds get
    different file names. *)
Theorem export_filename_injective (s s' : Session) (iso iso' : string)
    (now now' : Z) (d d' : Download) :
  snd (exportRecording iso now s) = Some d ->
  snd (exportRecording iso' now' s') = Some d' ->
  (exists digits,
     download d = "soundspace-recording-" +:+ digits +:+ ".json"
     /\ parse_number digits = Some now)
  /\ (download d = download d' -> now = now').
Proof.
  intros Hd Hd'.
  apply exportRecording_Some in Hd as (_ & _ & _ & Hf).
  apply exportRecording_Some in Hd' as (_ & _ & _ & Hf').
  split.
  - eexists. split; [exact Hf | apply number_to_string_parse].
  - rewrite Hf, Hf'. intros H.
    apply (inj (String.app _)), append_cancel_r in H.
    pose proof (number_to_string_parse now) as Hp.
    rewrite H, number_to_string_parse in Hp. congruence.
Qed.

Lemma export_filename_injective_witness :
  (exists digits,
     "soundspace-recording-1704067200000.json"
     = "soundspace-recording-" +:+ digits +:+ ".json"
     /\ parse_number digits = Some 1704067200000)
  /\ ("soundspace-recording-1704067200000.json"
      = "soundspace-recording-1704067200001.json"
      -> 1704067200000 = 1704067200001).
Proof.
  apply (export_filename_injective
           (mkSession piano false [mkNoteEvent piano "C4" 100] 1000)
           (mkSession piano false [mkNoteEvent piano "C4" 100] 1000)
           "2024-01-01T00:00:00.000Z" "2024-01-01T00:00:00.001Z"
           1704067200000 1704067200001 _ _ eq_refl eq_refl).
Defined.

End SoundSpaceExtra.

(** * More on the panels: whole input sequences *)

Module PianoExtra.
Import Piano PianoTrace.

Lemma synthRef_step (st : State) (e : Event) :
  synthRef (fst (step st e)) = synthRef st.
Proof.
  assert (Hplay : forall n s, synthRef (fst (playNote n s)) = synthRef s).
  { intros n s. unfold playNote. now destruct (negb (synthRef s)). }
  destruct e as [k | k | n |]; cbn [step fst].
  - unfold handleKeyDown. destruct (mapping _); [| reflexivity].
    destruct (_ && _); [| reflexivity]. now rewrite Hplay.
  - unfold handleKeyUp. destruct (mapping _); [| reflexivity].
    now destruct (Js.truthy _).
  - apply Hplay.
  - now destruct (timers st).
Qed.

Lemma synthRef_run (evs : list Event) :
  forall st, synthRef (run st evs) = synthRef st.
Proof.
  induction evs as [| e evs IH]; intros st; [reflexivity |].
  now rewrite PianoSpec.piano_run_cons, IH, synthRef_step.
Qed.

Lemma piano_notesPlayed_app (cs cs' : list Call) :
  notesPlayed (cs ++ cs') = notesPlayed cs ++ notesPlayed cs'.
Proof. apply omap_app. Qed.

Lemma notesPlayed_playNote (n : string) (st : State) :
  synthRef st = true -> notesPlayed (snd (playNote n st)) = [n].
Proof.
  intros H. rewrite PianoSpec.playNote_mounted by assumption. cbn [snd].
  rewrite piano_notesPlayed_app. now destruct (contextRunning st).
Qed.

(** The notes reported by one event, in a state reached from the
    mounted panel by the events [pre]. *)
Lemma piano_notesPlayed_step (running : bool) (pre : list Event) (e : Event) :
  notesPlayed (snd (step (run (mounted running) pre) e)) =
  match e with
  | KeyDown k =>
      match mapping (Js.toLowerCase k) with
      | Some n => if keyHeld pre (Js.toLowerCase k) then [] else [n]
      | None => []
      end
  | MouseDown n => [n]
  | _ => []
  end.
Proof.
  assert (Hs : synthRef (run (mounted running) pre) = true)
    by now rewrite synthRef_run.
  destruct e as [k | k | n |]; cbn [step snd].
  - destruct (mapping (Js.toLowerCase k)) as [n |] eqn:Hm.
    + destruct (keyHeld pre (Js.toLowerCase k)) eqn:Hh.
      * rewrite PianoSpec.piano_handleKeyDown_pressed; [reflexivity |].
        apply PianoSpec.piano_pressedKeys_held. split; [eauto | assumption].
      * rewrite (PianoSpec.piano_handleKeyDown_fresh _ _ _ Hm).
        -- now apply notesPlayed_playNote.
        -- intros Hin. apply PianoSpec.piano_pressedKeys_held in Hin.
           destruct Hin as [_ Hin]. congruence.
    + now rewrite PianoSpec.piano_handleKeyDown_unmapped.
  - reflexivity.
  - unfold handleKeyPress. now apply notesPlayed_playNote.
  - now destruct (timers _).
Qed.

Lemma piano_notesPlayed_run (running : bool) (evs : list Event) :
  forall pre : list Event,
    notesPlayed (calls (run (mounted running) pre) evs) = notesMeant pre evs.
Proof.
  induction evs as [| e evs IH]; intros pre; [reflexivity |].
  cbn [calls notesMeant]. rewrite piano_notesPlayed_app, piano_notesPlayed_step.
  rewrite <- PianoSpec.piano_run_snoc, IH. reflexivity.
Qed.

(** X7: over any sequence of inputs to the mounted piano whose keys
    are plain (ASCII, and neither [constructor] nor [__proto__]),
    [onNotePlay] is called exactly for the notes the player meant, in
    order: once for every pointer press and once for every key-down of a
    mapped key that was up; key repeats, unmapped keys, key-ups and
    timers report nothing. *)
Theorem piano_reports_notes_meant (running : bool) (evs : list Event) :
  Keys.plainPiano evs ->
  notesPlayed (calls (mounted running) evs) = notesMeant [] evs.
Proof. intros _. apply (piano_notesPlayed_run running evs []). Qed.

Lemma piano_reports_notes_meant_witness :
  notesPlayed
    (calls (mounted true)
       [KeyDown "a"; KeyDown "A"; MouseDown "E4"; KeyDown "Enter";
        KeyUp "a"; Timeout; KeyDown "a"])
  = ["C4"; "E4"; "C4"].
Proof.
  apply (piano_reports_notes_meant true
           [KeyDown "a"; KeyDown "A"; MouseDown "E4"; KeyDown "Enter";
            KeyUp "a"; Timeout; KeyDown "a"]).
  repeat constructor.
Defined.

(** X8: whatever the state, one input to the piano makes either no
    call at all or exactly one trigger of the synthesizer, one
    [onNotePlay] for the same note and one 150 ms timer, in this order,
    after starting the audio context if it was not running; a key-up and
    a timer make no call.  So [onNotePlay] is never called without the
    sound being triggered. *)
Theorem piano_calls_shape (st : State) (e : Event) (k : string) :
  (snd (step st e) = []
   \/ exists n,
        snd (step st e) =
          (if contextRunning st then [] else [ToneStart])
            ++ [TriggerAttackRelease n "8n"; OnNotePlay n; SetTimeout 150])
  /\ snd (step st (KeyUp k)) = []
  /\ snd (step st Timeout) = [].
Proof.
  assert (Hplay : forall n s,
             contextRunning s = contextRunning st ->
             snd (playNote n s) = []
             \/ exists m,
                  snd (playNote n s) =
                    (if contextRunning st then [] else [ToneStart])
                      ++ [TriggerAttackRelease m "8n"; OnNotePlay m;
                          SetTimeout 150]).
  { intros n s Hc. unfold playNote.
    destruct (negb (synthRef s)); [now left |]. right. exists n.
    now rewrite Hc. }
  repeat split.
  - destruct e as [k' | k' | n |]; cbn [step snd].
    + unfold handleKeyDown. destruct (mapping _); [| now left].
      destruct (_ && _); [| now left]. now apply Hplay.
    + now left.
    + now apply Hplay.
    + left. now destruct (timers st).
  - cbn. now destruct (timers st).
Qed.





(** X10: in the mounted piano, after inputs whose keys are plain
    (ASCII, and neither [constructor] nor [__proto__]), the pressed set
    holds exactly the mapped keys (in lower case) that are physically
    down: those whose last keyboard event was a key-down. *)
Theorem piano_pressedKeys_are_held (running : bool) (evs : list Event)
    (key : string) :
  Keys.plainPiano evs ->
  key ∈ pressedKeys (run (mounted running) evs)
  <-> is_Some (mapping key) /\ keyHeld evs key = true.
Proof. intros _. apply PianoSpec.piano_pressedKeys_held. Qed.

Lemma piano_pressedKeys_are_held_witness :
  "s" ∈ pressedKeys
          (run (mounted true) [KeyDown "a"; KeyDown "S"; KeyUp "a"; Timeout])
  <-> is_Some (mapping "s")
      /\ keyHeld [KeyDown "a"; KeyDown "S"; KeyUp "a"; Timeout] "s" = true.
Proof.
  apply (piano_pressedKeys_are_held true
           [KeyDown "a"; KeyDown "S"; KeyUp "a"; Timeout] "s").
  repeat constructor.
Defined.

(** X11: a plain key (ASCII, and neither [constructor] nor
    [__proto__]) that the piano does not map is ignored: its key-down and
    its key-up leave the state as it is and call nothing. *)
Theorem piano_unmapped_key_ignored (st : State) (k : string) :
  Keys.plainKey k = true ->
  mapping (Js.toLowerCase k) = None ->
  step st (KeyDown k) = (st, []) /\ step st (KeyUp k) = (st, []).
Proof.
  intros _ H. cbn [step].
  now rewrite PianoSpec.piano_handleKeyDown_unmapped,
    PianoSpec.handleKeyUp_unmapped.
Qed.

Lemma piano_unmapped_key_ignored_witness :
  step (mounted true) (KeyDown "Enter") = (mounted true, [])
  /\ step (mounted true) (KeyUp "Enter") = (mounted true, []).
Proof. apply piano_unmapped_key_ignored; reflexivity. Defined.

End PianoExtra.

Module DrumsExtra.
Import Drums DrumsTrace.

Lemma drums_notesPlayed_app (cs cs' : list Call) :
  notesPlayed (cs ++ cs') = notesPlayed cs ++ notesPlayed cs'.
Proof. apply omap_app. Qed.

Lemma notesPlayed_playDrum (nm n : string) (st : State) :
  synthsRef st = mountedSynths ->
  notesPlayed (snd (playDrum nm n st)) =
    match mountedSynths !! nm with
    | Some _ => [nm +:+ "-" +:+ n]
    | None => []
    end.
Proof.
  intros Hs. destruct (mountedSynths !! nm) as [synth |] eqn:Hv.
  - rewrite (DrumsSpec.playDrum_mounted nm n synth) by now rewrite Hs.
    cbn [snd]. rewrite drums_notesPlayed_app.
    now destruct (contextRunning st), synth.
  - unfold playDrum. now rewrite Hs, Hv.
Qed.

Lemma drums_notesPlayed_step (running : bool) (pre : list Event) (e : Event) :
  notesPlayed (snd (step (run (mounted running) pre) e)) =
  match e with
  | KeyDown k =>
      match drumOfKey (Js.toLowerCase k) with
      | Some d =>
          if keyHeld pre (Js.toLowerCase k) then []
          else [name d +:+ "-" +:+ note d]
      | None => []
      end
  | MouseDown nm n =>
      match mountedSynths !! nm with
      | Some _ => [nm +:+ "-" +:+ n]
      | None => []
      end
  | _ => []
  end.
Proof.
  assert (Hs : synthsRef (run (mounted running) pre) = mountedSynths)
    by now rewrite DrumsSpec.synthsRef_run.
  destruct e as [k | k | nm n |]; cbn [step snd].
  - destruct (drumOfKey (Js.toLowerCase k)) as [d |] eqn:Hm.
    + destruct (keyHeld pre (Js.toLowerCase k)) eqn:Hh.
      * rewrite DrumsSpec.drums_handleKeyDown_pressed; [reflexivity |].
        apply DrumsSpec.drums_pressedKeys_held. split; [eauto | assumption].
      * rewrite (DrumsSpec.drums_handleKeyDown_fresh _ _ _ Hm).
        -- rewrite notesPlayed_playDrum by exact Hs.
           destruct (DrumsSpec.mountedSynths_drum d) as [synth ->];
             [now apply DrumsSpec.drumOfKey_In in Hm | reflexivity].
        -- intros Hin. apply DrumsSpec.drums_pressedKeys_held in Hin.
           destruct Hin as [_ Hin]. congruence.
    + now rewrite DrumsSpec.drums_handleKeyDown_unmapped.
  - reflexivity.
  - unfold handlePadClick. now apply notesPlayed_playDrum.
  - now destruct (timers _).
Qed.

Lemma drums_notesPlayed_run (running : bool) (evs : list Event) :
  forall pre : list Event,
    notesPlayed (calls (run (mounted running) pre) evs) = notesMeant pre evs.
Proof.
  induction evs as [| e evs IH]; intros pre; [reflexivity |].
  cbn [calls notesMeant]. rewrite drums_notesPlayed_app, drums_notesPlayed_step.
  rewrite <- DrumsSpec.drums_run_snoc, IH. reflexivity.
Qed.

(** X12: over any sequence of inputs to the mounted drum kit,
    [onNotePlay] is called exactly for the hits the player meant, in
    order, each as the string name-note of its pad: once for every
    pointer press of a pad and once for every key-down of a mapped key
    that was up. *)
Theorem drums_report_notes_meant (running : bool) (evs : list Event) :
  notesPlayed (calls (mounted running) evs) = notesMeant [] evs.
Proof. apply (drums_notesPlayed_run running evs []). Qed.

(** X13: whatever the state, one input to the drum kit makes either no
    call at all or exactly one trigger of the voice of a pad, one
    [onNotePlay] with that pad's name-note string and one 200 ms timer,
    in this order, after starting the audio context if it was not
    running; a noise voice is triggered without a note, the others with
    the note; a key-up and a timer make no call. *)
Theorem drums_calls_shape (st : State) (e : Event) (k : string) :
  (snd (step st e) = []
   \/ exists nm n synth,
        synthsRef st !! nm = Some synth
        /\ snd (step st e) =
             (if contextRunning st then [] else [ToneStart])
               ++ [TriggerAttackRelease nm
                     (match synth with NoiseSynth => None | _ => Some n end)
                     "8n";
                   OnNotePlay (nm +:+ "-" +:+ n); SetTimeout 200])
  /\ snd (step st (KeyUp k)) = []
  /\ snd (step st Timeout) = [].
Proof.
  assert (Hplay : forall nm n s,
             contextRunning s = contextRunning st ->
             synthsRef s = synthsRef st ->
             snd (playDrum nm n s) = []
             \/ exists nm' n' synth,
                  synthsRef st !! nm' = Some synth
                  /\ snd (playDrum nm n s) =
                       (if contextRunning st then [] else [ToneStart])
                         ++ [TriggerAttackRelease nm'
                               (match synth with
                                | NoiseSynth => None
                                | _ => Some n'
                                end) "8n";
                             OnNotePlay (nm' +:+ "-" +:+ n'); SetTimeout 200]).
  { intros nm n s Hc Hs. unfold playDrum. rewrite Hs, Hc.
    destruct (synthsRef st !! nm) as [synth |] eqn:Hv; [| now left].
    right. exists nm, n, synth. split; [assumption |].
    cbn [snd]. now destruct synth. }
  repeat split.
  - destruct e as [k' | k' | nm n |]; cbn [step snd].
    + unfold handleKeyDown. destruct (drumOfKey _); [| now left].
      destruct (negb _); [| now left]. now apply Hplay.
    + now left.
    + now apply Hplay.
    + left. now destruct (timers st).
  - cbn. now destruct (timers st).
Qed.

Lemma drums_timers_drop (k : nat) :
  forall st, timers (run st (replicate k Timeout)) = drop k (timers st).
Proof.
  induction k as [| k IH]; intros st; [reflexivity |].
  cbn [replicate]. rewrite DrumsSpec.drums_run_cons, IH. cbn [step fst].
  destruct (timers st) as [| n rest] eqn:Ht; cbn [fst].
  - rewrite Ht. now rewrite !drop_nil.
  - reflexivity.
Qed.

Lemma drums_pressedKeys_timeouts (k : nat) :
  forall st, pressedKeys (run st (replicate k Timeout)) = pressedKeys st.
Proof.
  induction k as [| k IH]; intros st; [reflexivity |].
  cbn [replicate]. rewrite DrumsSpec.drums_run_cons, IH. cbn [step fst].
  now destruct (timers st).
Qed.

Lemma activePads_timers_run (evs : list Event) :
  forall st,
    (forall nm, nm ∈ activePads st -> nm ∈ timers st) ->
    forall nm, nm ∈ activePads (run st evs) -> nm ∈ timers (run st evs).
Proof.
  induction evs as [| e evs IH]; intros st Inv; [exact Inv |].
  rewrite DrumsSpec.drums_run_cons. apply IH.
  now apply DrumsSpec.activePads_step.
Qed.

(** X14: once every pending timer of the drum kit has fired, with no
    input in between, no timer is left, the active set is empty and the
    pressed keys are as before: a pad is then shown active exactly when
    its key is held. *)
Theorem drums_drain_clears (running : bool) (evs : list Event) (nm : string) :
  timers (drain (run (mounted running) evs)) = []
  /\ activePads (drain (run (mounted running) evs)) = ∅
  /\ pressedKeys (drain (run (mounted running) evs))
     = pressedKeys (run (mounted running) evs)
  /\ (isPadActive (drain (run (mounted running) evs)) nm = true
      <-> padHeld evs nm = true).
Proof.
  set (st := run (mounted running) evs).
  assert (Ht : timers (drain st) = []).
  { unfold drain. rewrite drums_timers_drop. now apply drop_all. }
  assert (Ha : activePads (drain st) = ∅).
  { apply set_eq. intros m. split; [| intros H; now apply elem_of_empty in H].
    intros H. exfalso.
    assert (Hin : m ∈ timers (drain st)).
    { revert H. unfold drain. apply activePads_timers_run.
      apply (activePads_timers_run evs (mounted running)).
      cbn. intros x Hx. now apply elem_of_empty in Hx. }
    rewrite Ht in Hin. now apply not_elem_of_nil in Hin. }
  assert (Hp : pressedKeys (drain st) = pressedKeys st)
    by apply drums_pressedKeys_timeouts.
  repeat split; try assumption.
  - rewrite DrumsSpec.isPadActive_iff, Ha, Hp.
    intros [H | (d & Hin & Hn & H)].
    + now apply elem_of_empty in H.
    + apply DrumsSpec.padHeld_iff. exists d. repeat split; try assumption.
      now apply (DrumsSpec.drums_pressedKeys_held running).
  - intros H. apply DrumsSpec.padHeld_iff in H as (d & Hin & Hn & H).
    rewrite DrumsSpec.isPadActive_iff, Hp. right. exists d.
    repeat split; try assumption.
    apply (DrumsSpec.drums_pressedKeys_held running). split; [| assumption].
    exists d. now apply DrumsSpec.drumOfKey_In.
Qed.

(** X15: in the mounted drum kit the pressed set holds exactly the
    mapped keys (in lower case) that are physically down. *)
Theorem drums_pressedKeys_are_held (running : bool) (evs : list Event)
    (k : string) :
  k ∈ pressedKeys (run (mounted running) evs)
  <-> is_Some (drumOfKey k) /\ keyHeld evs k = true.
Proof. apply DrumsSpec.drums_pressedKeys_held. Qed.

(** X16: a key the drum kit does not map is ignored: its key-down and
    its key-up leave the state as it is and call nothing. *)
Theorem drums_unmapped_key_ignored (st : State) (k : string) :
  drumOfKey (Js.toLowerCase k) = None ->
  step st (KeyDown k) = (st, []) /\ step st (KeyUp k) = (st, []).
Proof.
  intros H. cbn [step]. unfold handleKeyUp.
  now rewrite DrumsSpec.drums_handleKeyDown_unmapped, H.
Qed.

Lemma drums_unmapped_key_ignored_witness :
  step (mounted true) (KeyDown "a") = (mounted true, [])
  /\ step (mounted true) (KeyUp "a") = (mounted true, []).
Proof. apply drums_unmapped_key_ignored. reflexivity. Defined.

End DrumsExtra.

(** * The page: what reaches the log *)

Module AppSpec.
Import SoundSpace App.

Lemma deliver_frame (r : Session) (now : Z) (ns : list string) :
  forall s,
    activeInstrument (deliver r now ns s) = activeInstrument s
    /\ isRecording (deliver r now ns s) = isRecording s
    /\ recordingStartTime (deliver r now ns s) = recordingStartTime s.
Proof.
  induction ns as [| n ns IH]; intros s; [now repeat split |].
  cbn [deliver fold_left]. fold (deliver r now ns (handleNotePlay r n now s)).
  destruct (IH (handleNotePlay r n now s)) as (-> & -> & ->).
  apply SoundSpaceSpec.handleNotePlay_frame.
Qed.

Lemma deliver_log (r : Session) (now : Z) (ns : list string) :
  forall s,
    recordedNotes (deliver r now ns s) =
    recordedNotes s ++
      (if isRecording r
       then (fun n => mkNoteEvent (activeInstrument r) n
                        (now - recordingStartTime s)) <$> ns
       else []).
Proof.
  induction ns as [| n ns IH]; intros s.
  - cbn. destruct (isRecording r); now rewrite app_nil_r.
  - cbn [deliver fold_left]. fold (deliver r now ns (handleNotePlay r n now s)).
    rewrite IH, SoundSpaceSpec.handleNotePlay_log.
    destruct (SoundSpaceSpec.handleNotePlay_frame r n now s) as (_ & _ & ->).
    destruct (isRecording r); [now rewrite <- app_assoc |].
    now rewrite !app_nil_r.
Qed.

Lemma run_snoc (a : State) (l : list (Z * Event)) (e : Z * Event) :
  run a (l ++ [e]) = step (run a l) e.
Proof. unfold run. now rewrite fold_left_app. Qed.

Lemma run_cons (a : State) (e : Z * Event) (l : list (Z * Event)) :
  run a (e :: l) = run (step a e) l.
Proof. reflexivity. Qed.

(** ** One keyboard event *)

Lemma piano_keyDown_notes (st : Piano.State) (k : string) :
  Piano.synthRef st = true ->
  PianoTrace.notesPlayed (snd (Piano.step st (Piano.KeyDown k)))
  = option_list (keyNote (PianoPanel st) k).
Proof.
  intros Hs. cbn [Piano.step keyNote].
  destruct (Piano.mapping (Js.toLowerCase k)) as [n |] eqn:Hm.
  - destruct (decide (Js.toLowerCase k ∈ Piano.pressedKeys st)) as [Hp | Hp].
    + rewrite PianoSpec.piano_handleKeyDown_pressed by assumption.
      now rewrite (bool_decide_eq_true_2 _ Hp).
    + rewrite (PianoSpec.piano_handleKeyDown_fresh _ _ _ Hm Hp).
      rewrite (bool_decide_eq_false_2 _ Hp).
      now apply PianoExtra.notesPlayed_playNote.
  - now rewrite PianoSpec.piano_handleKeyDown_unmapped.
Qed.

Lemma drums_keyDown_notes (st : Drums.State) (k : string) :
  Drums.synthsRef st = Drums.mountedSynths ->
  DrumsTrace.notesPlayed (snd (Drums.step st (Drums.KeyDown k)))
  = option_list (keyNote (DrumsPanel st) k).
Proof.
  intros Hs. cbn [Drums.step keyNote].
  destruct (Drums.drumOfKey (Js.toLowerCase k)) as [d |] eqn:Hm.
  - destruct (decide (Js.toLowerCase k ∈ Drums.pressedKeys st)) as [Hp | Hp].
    + rewrite DrumsSpec.drums_handleKeyDown_pressed by assumption.
      now rewrite (bool_decide_eq_true_2 _ Hp).
    + rewrite (DrumsSpec.drums_handleKeyDown_fresh _ _ _ Hm Hp).
      rewrite (bool_decide_eq_false_2 _ Hp).
      rewrite DrumsExtra.notesPlayed_playDrum by exact Hs.
      destruct (DrumsSpec.mountedSynths_drum d) as [synth ->];
        [now apply DrumsSpec.drumOfKey_In in Hm | reflexivity].
  - now rewrite DrumsSpec.drums_handleKeyDown_unmapped.
Qed.

(** A key-down re-registers the listeners exactly when it reports a
    note. *)
Lemma pianoRegisters_down (st : Piano.State) (k : string) :
  pianoRegisters st true k
  = match keyNote (PianoPanel st) k with Some _ => true | None => false end.
Proof.
  unfold pianoRegisters, keyNote.
  destruct (Piano.mapping (Js.toLowerCase k)) as [n |] eqn:Hm; [| reflexivity].
  rewrite (PianoSpec.mapping_truthy _ _ Hm). cbn [negb orb andb].
  now destruct (bool_decide _).
Qed.

Lemma drumsRegisters_down (st : Drums.State) (k : string) :
  drumsRegisters st true k
  = match keyNote (DrumsPanel st) k with Some _ => true | None => false end.
Proof.
  unfold drumsRegisters, keyNote.
  destruct (Drums.drumOfKey (Js.toLowerCase k)); [| reflexivity].
  cbn [negb orb]. now destruct (bool_decide _).
Qed.

Lemma ready_piano_step (st : Piano.State) (e : Piano.Event) :
  Piano.synthRef st = true -> Piano.synthRef (fst (Piano.step st e)) = true.
Proof. intros H. now rewrite PianoExtra.synthRef_step. Qed.

Lemma ready_drums_step (st : Drums.State) (e : Drums.Event) :
  Drums.synthsRef st = Drums.mountedSynths ->
  Drums.synthsRef (fst (Drums.step st e)) = Drums.mountedSynths.
Proof. intros H. now rewrite DrumsSpec.synthsRef_step. Qed.

(** A key-down on the page: what is delivered, to which callback, and
    which callback the listeners hold afterwards. *)
Lemma keyboard_down (a : State) (k : string) (now : Z) :
  ready (panel a) ->
  session (keyboard true k now a)
  = deliver (listener a) now (option_list (keyNote (panel a) k)) (session a)
  /\ listener (keyboard true k now a)
     = match keyNote (panel a) k with
       | Some _ => session (keyboard true k now a)
       | None => listener a
       end.
Proof.
  intros Hr. unfold keyboard. destruct (panel a) as [st | st]; cbn in Hr.
  - cbn [session listener]. rewrite piano_keyDown_notes by assumption.
    rewrite pianoRegisters_down. now destruct (keyNote _ _).
  - cbn [session listener]. rewrite drums_keyDown_notes by assumption.
    rewrite drumsRegisters_down. now destruct (keyNote _ _).
Qed.

Lemma keyboard_up (a : State) (k : string) (now : Z) :
  session (keyboard false k now a) = session a
  /\ (listener (keyboard false k now a) = session a
      \/ listener (keyboard false k now a) = listener a).
Proof.
  unfold keyboard. destruct (panel a) as [st | st]; cbn [session listener].
  - cbn [Piano.step snd PianoTrace.notesPlayed omap deliver fold_left].
    split; [reflexivity |]. destruct (pianoRegisters _ _ _); auto.
  - cbn [Drums.step snd DrumsTrace.notesPlayed omap deliver fold_left].
    split; [reflexivity |]. destruct (drumsRegisters _ _ _); auto.
Qed.

(** ** What the page keeps true *)

Lemma keyboard_panel (a : State) (down : bool) (k : string) (now : Z) :
  ready (panel a) ->
  ready (panel (keyboard down k now a))
  /\ instrumentOf (panel (keyboard down k now a)) = instrumentOf (panel a).
Proof.
  intros Hr. unfold keyboard. destruct (panel a) as [st | st]; cbn in Hr;
    cbn [panel ready instrumentOf]; split; try reflexivity.
  - now apply ready_piano_step.
  - now apply ready_drums_step.
Qed.

Lemma keyboard_listener (a : State) (down : bool) (k : string) (now : Z) :
  listener (keyboard down k now a) = session (keyboard down k now a)
  \/ listener (keyboard down k now a) = listener a.
Proof.
  unfold keyboard. destruct (panel a) as [st | st]; cbn [session listener].
  - destruct (pianoRegisters _ _ _); auto.
  - destruct (drumsRegisters _ _ _); auto.
Qed.

Lemma keyboard_session (a : State) (down : bool) (k : string) (now : Z) :
  exists ns, session (keyboard down k now a)
             = deliver (listener a) now ns (session a).
Proof.
  unfold keyboard. destruct (panel a) as [st | st]; cbn [session]; eauto.
Qed.

Lemma wellFormed_ready (a : State) : wellFormed a -> ready (panel a).
Proof. intros [H _]. exact H. Qed.

Lemma wellFormed_initial (running : bool) : wellFormed (initial running).
Proof. repeat split. Qed.

Lemma wellFormed_step (a : State) (e : Z * Event) :
  wellFormed a -> wellFormed (step a e).
Proof.
  intros Hwf. pose proof Hwf as (Hr & Hp & Hl).
  destruct e as [now [k | k | n | i | | i | | | iso]]; unfold step;
    cbn [fst snd].
  - destruct (keyboard_panel a true k now Hr) as [Hr' Hp'].
    destruct (keyboard_session a true k now) as [ns Hs].
    destruct (deliver_frame (listener a) now ns (session a)) as (Hi & _ & _).
    repeat split; [exact Hr' | rewrite Hp', Hs, Hi; exact Hp |].
    destruct (keyboard_listener a true k now) as [-> | ->];
      [reflexivity | now rewrite Hs, Hi].
  - destruct (keyboard_panel a false k now Hr) as [Hr' Hp'].
    destruct (keyboard_session a false k now) as [ns Hs].
    destruct (deliver_frame (listener a) now ns (session a)) as (Hi & _ & _).
    repeat split; [exact Hr' | rewrite Hp', Hs, Hi; exact Hp |].
    destruct (keyboard_listener a false k now) as [-> | ->];
      [reflexivity | now rewrite Hs, Hi].
  - destruct (panel a) as [st | st] eqn:Hpa; [| exact Hwf].
    destruct (bool_decide _); [| exact Hwf].
    unfold wellFormed. cbn [panel session listener instrumentOf].
    destruct (deliver_frame (session a) now
                (PianoTrace.notesPlayed (snd (Piano.step st (Piano.MouseDown n))))
                (session a)) as (-> & _ & _).
    repeat split; [now apply ready_piano_step | exact Hp | exact Hl].
  - destruct (panel a) as [st | st] eqn:Hpa; [exact Hwf |].
    destruct (Drums.drumSounds !! i) as [d |]; [| exact Hwf].
    unfold wellFormed. cbn [panel session listener instrumentOf].
    destruct (deliver_frame (session a) now
                (DrumsTrace.notesPlayed
                   (snd (Drums.step st
                           (Drums.MouseDown (Drums.name d) (Drums.note d)))))
                (session a)) as (-> & _ & _).
    repeat split; [now apply ready_drums_step | exact Hp | exact Hl].
  - unfold wellFormed. cbn [panel session listener].
    destruct (panel a) as [st | st]; cbn [instrumentOf] in *;
      repeat split; try assumption.
    + now apply ready_piano_step.
    + now apply ready_drums_step.
  - destruct (sameInstrument i (activeInstrument (session a)));
      [exact Hwf |].
    unfold wellFormed. cbn [panel session listener].
    now destruct i.
  - destruct (isRecording (session a)); [exact Hwf |]. now repeat split.
  - destruct (isRecording (session a)); [| exact Hwf]. now repeat split.
  - unfold wellFormed. cbn [panel session listener].
    now rewrite SoundSpaceSpec.exportRecording_fst.
Qed.

Lemma wellFormed_run (l : list (Z * Event)) :
  forall a, wellFormed a -> wellFormed (run a l).
Proof.
  induction l as [| e l IH]; intros a Hwf; [exact Hwf |].
  rewrite run_cons. now apply IH, wellFormed_step.
Qed.

(** X17: at all times the mounted panel is the one of the selected
    instrument, and the callback its keyboard listeners hold, however old,
    was made for the selected instrument: switching instruments mounts a
    new panel, which registers new listeners. *)
Theorem panel_matches_instrument (running : bool) (l : list (Z * Event)) :
  instrumentOf (panel (run (initial running) l))
  = activeInstrument (session (run (initial running) l))
  /\ activeInstrument (listener (run (initial running) l))
     = activeInstrument (session (run (initial running) l)).
Proof.
  destruct (wellFormed_run l (initial running) (wellFormed_initial running))
    as (_ & H1 & H2).
  now split.
Qed.

(** ** What one input does to the session *)

Lemma keyNote_noteOf (p : Panel) (k n : string) :
  keyNote p k = Some n -> noteOf (instrumentOf p) n.
Proof.
  destruct p as [st | st]; cbn [keyNote instrumentOf noteOf].
  - destruct (Piano.mapping (Js.toLowerCase k)) as [m |] eqn:Hm;
      [| discriminate].
    destruct (bool_decide _); [discriminate |]. intros [= <-].
    apply PianoSpec.mapping_In, list_elem_of_In in Hm.
    assert (Hall : Forall (fun kv => snd kv ∈ keyButtons) Piano.keyboardMapping)
      by (apply (bool_decide_unpack _); vm_compute; reflexivity).
    rewrite Forall_forall in Hall. exact (Hall _ Hm).
  - destruct (Drums.drumOfKey (Js.toLowerCase k)) as [d |] eqn:Hm;
      [| discriminate].
    destruct (bool_decide _); [discriminate |]. intros [= <-].
    apply list_elem_of_fmap. exists d. split; [reflexivity |].
    apply list_elem_of_In. now apply DrumsSpec.drumOfKey_In in Hm.
Qed.

Lemma pad_noteOf (i : nat) (d : Drums.Drum) :
  Drums.drumSounds !! i = Some d ->
  noteOf drums (Drums.name d +:+ "-" +:+ Drums.note d)
  /\ In d Drums.drumSounds.
Proof.
  intros H. apply list_elem_of_lookup_2 in H. split.
  - apply list_elem_of_fmap. now exists d.
  - now apply list_elem_of_In.
Qed.

(** The session after one input is the session before, but for one of
    five things: a note delivered to the listeners' callback by a
    key-down, a note delivered to the current callback by a pointer
    press, a change of instrument, a start, a stop. *)
Lemma step_cases (a : State) (e : Z * Event) :
  wellFormed a ->
  (session (step a e) = session a
   /\ (listener (step a e) = listener a \/ listener (step a e) = session a))
  \/ (exists k n,
        snd e = KeyDown k /\ keyNote (panel a) k = Some n
        /\ session (step a e) = handleNotePlay (listener a) n (fst e) (session a)
        /\ listener (step a e) = session (step a e))
  \/ (exists n,
        noteOf (activeInstrument (session a)) n
        /\ session (step a e) = onNotePlay n (fst e) (session a)
        /\ listener (step a e) = listener a)
  \/ (exists i,
        session (step a e) = setActiveInstrument i (session a)
        /\ listener (step a e) = session (step a e))
  \/ (snd e = ClickRecord /\ isRecording (session a) = false
      /\ session (step a e) = handleStartRecording (fst e) (session a)
      /\ listener (step a e) = listener a)
  \/ (isRecording (session a) = true
      /\ session (step a e) = handleStopRecording (session a)
      /\ listener (step a e) = listener a).
Proof.
  intros Hwf. pose proof Hwf as (Hr & Hp & Hl).
  destruct e as [now [k | k | n | i | | i | | | iso]]; unfold step;
    cbn [fst snd].
  - destruct (keyboard_down a k now Hr) as [Hs Hlis].
    destruct (keyNote (panel a) k) as [n |] eqn:Hk.
    + right; left. exists k, n. repeat split; assumption.
    + left. rewrite Hs, Hlis. cbn. auto.
  - left. destruct (keyboard_up a k now) as [Hs [Hlis | Hlis]];
      rewrite Hs, Hlis; auto.
  - destruct (panel a) as [st | st] eqn:Hpa; [| now left; auto].
    destruct (bool_decide_reflect (n ∈ keyButtons)) as [Hn | _];
      [| now left; auto].
    right; right; left. exists n. cbn [session listener instrumentOf] in *.
    rewrite <- Hp. split; [exact Hn |]. split; [| reflexivity].
    cbn [Piano.step]. unfold Piano.handleKeyPress.
    now rewrite PianoExtra.notesPlayed_playNote.
  - destruct (panel a) as [st | st] eqn:Hpa; [now left; auto |].
    destruct (Drums.drumSounds !! i) as [d |] eqn:Hd; [| now left; auto].
    destruct (pad_noteOf i d Hd) as [Hn Hin].
    right; right; left. exists (Drums.name d +:+ "-" +:+ Drums.note d).
    cbn [session listener instrumentOf] in *.
    rewrite <- Hp. split; [exact Hn |]. split; [| reflexivity].
    cbn [Drums.step]. unfold Drums.handlePadClick.
    rewrite DrumsExtra.notesPlayed_playDrum by assumption.
    now destruct (DrumsSpec.mountedSynths_drum d Hin) as [synth ->].
  - left. cbn. auto.
  - destruct (sameInstrument i (activeInstrument (session a)));
      [left; auto |].
    right; right; right; left. exists i. now split.
  - destruct (isRecording (session a)) eqn:Hrec; [left; auto |].
    right; right; right; right; left. now repeat split.
  - destruct (isRecording (session a)) eqn:Hrec; [| left; auto].
    right; right; right; right; right. now repeat split.
  - left. cbn [session listener].
    rewrite SoundSpaceSpec.exportRecording_fst. auto.
Qed.

(** ** The log of the page *)

Lemma tagged_step (a : State) (e : Z * Event) :
  wellFormed a ->
  Forall (fun ev => noteOf (instrument ev) (note ev))
    (recordedNotes (session a)) ->
  Forall (fun ev => noteOf (instrument ev) (note ev))
    (recordedNotes (session (step a e))).
Proof.
  intros Hwf Ht. pose proof Hwf as (_ & Hp & Hl).
  destruct (step_cases a e Hwf)
    as [[-> _] | [(k & n & _ & Hk & -> & _) | [(n & Hn & -> & _)
       | [(i & -> & _) | [(_ & _ & -> & _) | (_ & -> & _)]]]]];
    try exact Ht.
  - rewrite SoundSpaceSpec.handleNotePlay_log. apply Forall_app.
    split; [exact Ht |]. destruct (isRecording (listener a)); [| constructor].
    repeat constructor. cbn [instrument note]. rewrite Hl, <- Hp.
    now apply (keyNote_noteOf _ k).
  - unfold onNotePlay. rewrite SoundSpaceSpec.handleNotePlay_log.
    apply Forall_app. split; [exact Ht |].
    destruct (isRecording (session a)); repeat constructor. exact Hn.
  - constructor.
Qed.

(** X18: whatever is done on the page with plain keys (ASCII, and
    neither [constructor] nor [__proto__]), every logged event carries a
    string of the instrument it is tagged with: a piano event the note of
    a piano key, a drums event the name-note of a pad. *)
Theorem log_well_tagged (running : bool) (l : list (Z * Event)) :
  Keys.plainPage l ->
  Forall (fun ev => noteOf (instrument ev) (note ev))
    (recordedNotes (session (run (initial running) l))).
Proof.
  intros _.
  induction l as [| e l IH] using rev_ind; [constructor |].
  rewrite run_snoc. apply tagged_step; [| exact IH].
  apply wellFormed_run, wellFormed_initial.
Qed.

Lemma log_well_tagged_witness :
  Forall (fun ev => noteOf (instrument ev) (note ev))
    (recordedNotes
       (session
          (run (initial true)
             [(1000, ClickRecord); (1100, PianoMouseDown "C4");
              (1200, ClickInstrument drums); (1300, KeyDown "s");
              (1400, DrumsMouseDown 1%nat)]))).
Proof.
  apply (log_well_tagged true
           [(1000, ClickRecord); (1100, PianoMouseDown "C4");
            (1200, ClickInstrument drums); (1300, KeyDown "s");
            (1400, DrumsMouseDown 1%nat)]).
  repeat constructor.
Defined.

(** X19: while recording, a pointer press on a piano key or on a drum
    pad is logged: exactly one event, tagged with the mounted instrument,
    with the key's note or the pad's name-note and the time since the
    start, is appended. *)
Theorem pointer_press_logged (running : bool) (l : list (Z * Event))
    (now : Z) :
  isRecording (session (run (initial running) l)) = true ->
  (forall n,
     activeInstrument (session (run (initial running) l)) = piano ->
     n ∈ keyButtons ->
     recordedNotes
       (session (step (run (initial running) l) (now, PianoMouseDown n)))
     = recordedNotes (session (run (initial running) l))
         ++ [mkNoteEvent piano n
               (now - recordingStartTime (session (run (initial running) l)))])
  /\ (forall i d,
        activeInstrument (session (run (initial running) l)) = drums ->
        Drums.drumSounds !! i = Some d ->
        recordedNotes
          (session (step (run (initial running) l) (now, DrumsMouseDown i)))
        = recordedNotes (session (run (initial running) l))
            ++ [mkNoteEvent drums (Drums.name d +:+ "-" +:+ Drums.note d)
                  (now - recordingStartTime
                           (session (run (initial running) l)))]).
Proof.
  set (a := run (initial running) l). intros Hrec.
  assert (Hwf : wellFormed a) by apply wellFormed_run, wellFormed_initial.
  destruct Hwf as (Hr & Hp & _).
  split.
  - intros n Hi Hn. unfold step. cbn [fst snd].
    destruct (panel a) as [st | st]; cbn [instrumentOf] in Hp; [| congruence].
    rewrite (bool_decide_eq_true_2 _ Hn). cbn [session Piano.step].
    unfold Piano.handleKeyPress.
    rewrite PianoExtra.notesPlayed_playNote by assumption.
    cbn [deliver fold_left].
    now rewrite SoundSpaceSpec.handleNotePlay_log, Hrec, Hi.
  - intros i d Hi Hd. unfold step. cbn [fst snd].
    destruct (panel a) as [st | st]; cbn [instrumentOf] in Hp; [congruence |].
    rewrite Hd. cbn [session Drums.step]. unfold Drums.handlePadClick.
    rewrite DrumsExtra.notesPlayed_playDrum by assumption.
    destruct (DrumsSpec.mountedSynths_drum d) as [synth ->];
      [now apply (pad_noteOf i) |].
    cbn [deliver fold_left].
    now rewrite SoundSpaceSpec.handleNotePlay_log, Hrec, Hi.
Qed.

Lemma pointer_press_logged_witness :
  recordedNotes
    (session
       (step (run (initial true)
                [(1000, ClickRecord); (1100, ClickInstrument drums)])
          (1250, DrumsMouseDown 1%nat)))
  = [mkNoteEvent drums "Snare-D2" 250].
Proof.
  apply (proj2 (pointer_press_logged true
                  [(1000, ClickRecord); (1100, ClickInstrument drums)]
                  1250 eq_refl)
           1%nat (Drums.mkDrum "Snare" "d" "from-orange-500 to-orange-600" "D2"));
    reflexivity.
Defined.

(** X20: while recording, when the keyboard listeners hold a callback
    made while recording, a key-down that reports a note is logged:
    exactly one event with the selected instrument, that note and the
    time since the start is appended. *)
Theorem key_press_logged (running : bool) (l : list (Z * Event))
    (now : Z) (k n : string) :
  isRecording (session (run (initial running) l)) = true ->
  isRecording (listener (run (initial running) l)) = true ->
  keyNote (panel (run (initial running) l)) k = Some n ->
  recordedNotes (session (step (run (initial running) l) (now, KeyDown k)))
  = recordedNotes (session (run (initial running) l))
      ++ [mkNoteEvent (activeInstrument (session (run (initial running) l))) n
            (now - recordingStartTime (session (run (initial running) l)))].
Proof.
  set (a := run (initial running) l). intros Hrec Hlis Hk.
  assert (Hwf : wellFormed a) by apply wellFormed_run, wellFormed_initial.
  destruct (keyboard_down a k now (wellFormed_ready a Hwf)) as [Hs _].
  unfold step. cbn [fst snd]. rewrite Hs, Hk.
  change (option_list (Some n)) with [n].
  rewrite deliver_log, Hlis. destruct Hwf as (_ & _ & ->). reflexivity.
Qed.

Lemma key_press_logged_witness :
  recordedNotes
    (session
       (step (run (initial true)
                [(1000, ClickRecord); (1100, KeyDown "a"); (1200, KeyUp "a")])
          (1300, KeyDown "s")))
  = [mkNoteEvent piano "D4" 300].
Proof.
  apply (key_press_logged true
           [(1000, ClickRecord); (1100, KeyDown "a"); (1200, KeyUp "a")]
           1300 "s" "D4"); reflexivity.
Defined.

(** ** The callback the keyboard listeners hold *)

(** X21: the first key-down after the Record button is pressed is not
    logged.  The keyboard listeners still hold the callback made before
    the click, which sees [isRecording] false; they are registered again,
    with the current callback, only when that key-down has changed
    [pressedKeys]. *)
Theorem first_key_after_record_lost (running : bool) (l : list (Z * Event))
    (t0 t1 : Z) (k : string) :
  isRecording (session (run (initial running) l)) = false ->
  isRecording (listener (run (initial running) l)) = false ->
  isRecording
    (session (run (run (initial running) l)
                [(t0, ClickRecord); (t1, KeyDown k)])) = true
  /\ recordedNotes
       (session (run (run (initial running) l)
                   [(t0, ClickRecord); (t1, KeyDown k)])) = []
  /\ (is_Some (keyNote (panel (run (initial running) l)) k) ->
      isRecording
        (listener (run (run (initial running) l)
                     [(t0, ClickRecord); (t1, KeyDown k)])) = true).
Proof.
  set (a := run (initial running) l). intros Hrec Hlis.
  assert (Hwf : wellFormed a) by apply wellFormed_run, wellFormed_initial.
  set (a1 := step a (t0, ClickRecord)).
  assert (Ha1 : session a1 = handleStartRecording t0 (session a)
                /\ listener a1 = listener a /\ panel a1 = panel a).
  { unfold a1, step. cbn [fst snd]. now rewrite Hrec. }
  destruct Ha1 as (Hs1 & Hl1 & Hp1).
  assert (Hwf1 : wellFormed a1) by now apply wellFormed_step.
  change (run a [(t0, ClickRecord); (t1, KeyDown k)])
    with (keyboard true k t1 a1).
  destruct (keyboard_down a1 k t1 (wellFormed_ready a1 Hwf1)) as [Hs Hl].
  destruct (deliver_frame (listener a1) t1
              (option_list (keyNote (panel a1) k)) (session a1))
    as (_ & Hr & _).
  rewrite Hs, Hr, deliver_log, Hl1, Hlis, Hs1. repeat split.
  rewrite Hl, Hp1. intros [n ->]. now rewrite Hs, Hr, Hs1.
Qed.

Lemma first_key_after_record_lost_witness :
  isRecording
    (session (run (run (initial true) [])
                [(1000, ClickRecord); (1100, KeyDown "a")])) = true
  /\ recordedNotes
       (session (run (run (initial true) [])
                   [(1000, ClickRecord); (1100, KeyDown "a")])) = []
  /\ (is_Some (keyNote (panel (run (initial true) [])) "a") ->
      isRecording
        (listener (run (run (initial true) [])
                     [(1000, ClickRecord); (1100, KeyDown "a")])) = true).
Proof.
  apply (first_key_after_record_lost true [] 1000 1100 "a"); reflexivity.
Defined.

(** X22: the first key-down after the Stop button is pressed is still
    logged, if it reports a note: the keyboard listeners hold the callback
    made while recording.  After it they hold the current one. *)
Theorem first_key_after_stop_logged (running : bool) (l : list (Z * Event))
    (t0 t1 : Z) (k n : string) :
  isRecording (session (run (initial running) l)) = true ->
  isRecording (listener (run (initial running) l)) = true ->
  keyNote (panel (run (initial running) l)) k = Some n ->
  isRecording
    (session (run (run (initial running) l)
                [(t0, ClickStop); (t1, KeyDown k)])) = false
  /\ recordedNotes
       (session (run (run (initial running) l)
                   [(t0, ClickStop); (t1, KeyDown k)]))
     = recordedNotes (session (run (initial running) l))
         ++ [mkNoteEvent
               (activeInstrument (session (run (initial running) l))) n
               (t1 - recordingStartTime (session (run (initial running) l)))]
  /\ isRecording
       (listener (run (run (initial running) l)
                    [(t0, ClickStop); (t1, KeyDown k)])) = false.
Proof.
  set (a := run (initial running) l). intros Hrec Hlis Hk.
  assert (Hwf : wellFormed a) by apply wellFormed_run, wellFormed_initial.
  set (a1 := step a (t0, ClickStop)).
  assert (Ha1 : session a1 = handleStopRecording (session a)
                /\ listener a1 = listener a /\ panel a1 = panel a).
  { unfold a1, step. cbn [fst snd]. now rewrite Hrec. }
  destruct Ha1 as (Hs1 & Hl1 & Hp1).
  assert (Hwf1 : wellFormed a1) by now apply wellFormed_step.
  change (run a [(t0, ClickStop); (t1, KeyDown k)])
    with (keyboard true k t1 a1).
  destruct (keyboard_down a1 k t1 (wellFormed_ready a1 Hwf1)) as [Hs Hl].
  rewrite Hp1, Hk in Hs, Hl. change (option_list (Some n)) with [n] in Hs.
  destruct (deliver_frame (listener a1) t1 [n] (session a1)) as (_ & Hr & _).
  rewrite Hl, Hs, Hr, deliver_log, Hl1, Hlis, Hs1.
  destruct Hwf as (_ & _ & ->). now repeat split.
Qed.

Lemma first_key_after_stop_logged_witness :
  recordedNotes
    (session
       (run (run (initial true)
               [(1000, ClickRecord); (1100, KeyDown "a"); (1200, KeyUp "a")])
          [(1300, ClickStop); (1400, KeyDown "a")]))
  = recordedNotes
      (session
         (run (initial true)
            [(1000, ClickRecord); (1100, KeyDown "a"); (1200, KeyUp "a")]))
      ++ [mkNoteEvent piano "C4" 400].
Proof.
  apply (first_key_after_stop_logged true
           [(1000, ClickRecord); (1100, KeyDown "a"); (1200, KeyUp "a")]
           1300 1400 "a" "C4"); reflexivity.
Defined.

(** While not recording and short of a new start, no input makes the
    log, plus one if the listeners hold a callback made while recording,
    any larger. *)
Lemma stale_budget_step (a : State) (e : Z * Event) :
  wellFormed a ->
  isRecording (session a) = false ->
  snd e <> ClickRecord ->
  isRecording (session (step a e)) = false
  /\ (length (recordedNotes (session (step a e)))
        + (if isRecording (listener (step a e)) then 1 else 0)
      <= length (recordedNotes (session a))
           + (if isRecording (listener a) then 1 else 0))%nat
  /\ (isRecording (listener a) = false ->
      isRecording (listener (step a e)) = false
      /\ recordedNotes (session (step a e)) = recordedNotes (session a)).
Proof.
  intros Hwf Hrec Hne.
  destruct (step_cases a e Hwf)
    as [[Hs Hl] | [(k & n & _ & Hk & Hs & Hl) | [(n & Hn & Hs & Hl)
       | [(i & Hs & Hl) | [(He & _) | (Hon & _)]]]]];
    try congruence.
  - rewrite Hs. split; [exact Hrec |].
    destruct Hl as [-> | ->]; [now repeat split |].
    rewrite Hrec. split; [destruct (isRecording (listener a)); lia | auto].
  - destruct (SoundSpaceSpec.handleNotePlay_frame (listener a) n (fst e)
                (session a)) as (_ & Hr & _).
    rewrite Hl, Hs, Hr, Hrec, SoundSpaceSpec.handleNotePlay_log.
    split; [reflexivity |]. rewrite length_app.
    destruct (isRecording (listener a)); cbn [length].
    + split; [lia | discriminate].
    + split; [lia |]. intros _. now rewrite app_nil_r.
  - rewrite Hl, Hs. unfold onNotePlay, handleNotePlay. rewrite Hrec.
    now repeat split.
  - rewrite Hl, Hs. cbn [setActiveInstrument isRecording recordedNotes].
    rewrite Hrec. split; [reflexivity |].
    split; [destruct (isRecording (listener a)); lia | auto].
Qed.

(** X23: after a stop and until the next start, at most one more event
    is ever logged, whatever is played; and none at all once the keyboard
    listeners hold a callback made while not recording. *)
Theorem at_most_one_after_stop (running : bool) (l0 l : list (Z * Event)) :
  isRecording (session (run (initial running) l0)) = false ->
  noRecord l ->
  (length (recordedNotes (session (run (run (initial running) l0) l)))
   <= length (recordedNotes (session (run (initial running) l0))) + 1)%nat
  /\ (isRecording (listener (run (initial running) l0)) = false ->
      recordedNotes (session (run (run (initial running) l0) l))
      = recordedNotes (session (run (initial running) l0))).
Proof.
  set (a := run (initial running) l0). intros Hrec Hno.
  assert (Hwf : wellFormed a) by apply wellFormed_run, wellFormed_initial.
  clearbody a. revert a Hrec Hwf.
  assert (Hgen : forall a,
             isRecording (session a) = false -> wellFormed a ->
             (length (recordedNotes (session (run a l)))
                + (if isRecording (listener (run a l)) then 1 else 0)
              <= length (recordedNotes (session a))
                   + (if isRecording (listener a) then 1 else 0))%nat
             /\ (isRecording (listener a) = false ->
                 recordedNotes (session (run a l))
                 = recordedNotes (session a))).
  { induction l as [| e l IH]; intros a Hrec Hwf; [now split |].
    apply Forall_cons in Hno as [He Hno]. rewrite run_cons.
    destruct (stale_budget_step a e Hwf Hrec He) as (Hrec' & Hle & Hkeep).
    destruct (IH Hno (step a e) Hrec' (wellFormed_step a e Hwf))
      as [Hle' Hkeep'].
    split; [lia |]. intros Hlis. destruct (Hkeep Hlis) as [Hlis' Hlog].
    now rewrite (Hkeep' Hlis'). }
  intros a Hrec Hwf. destruct (Hgen a Hrec Hwf) as [Hle Hkeep].
  split; [| exact Hkeep].
  destruct (isRecording (listener a)), (isRecording (listener (run a l))); lia.
Qed.

Lemma at_most_one_after_stop_witness :
  Nat.le
    (length
       (recordedNotes
          (session
             (run (run (initial true)
                     [(1000, ClickRecord); (1100, KeyDown "a");
                      (1200, KeyUp "a"); (1300, ClickStop)])
                [(1400, KeyDown "a"); (1500, KeyUp "a"); (1600, KeyDown "s");
                 (1700, PianoMouseDown "C4")]))))
    (Nat.add
       (length
          (recordedNotes
             (session
                (run (initial true)
                   [(1000, ClickRecord); (1100, KeyDown "a");
                    (1200, KeyUp "a"); (1300, ClickStop)]))))
       1%nat).
Proof.
  refine (proj1 (at_most_one_after_stop true
                   [(1000, ClickRecord); (1100, KeyDown "a");
                    (1200, KeyUp "a"); (1300, ClickStop)]
                   [(1400, KeyDown "a"); (1500, KeyUp "a");
                    (1600, KeyDown "s"); (1700, PianoMouseDown "C4")]
                   _ _)).
  - reflexivity.
  - repeat constructor; discriminate.
Defined.

End AppSpec.

(** * The keyboard: upper and lower case *)

Module KeyboardExtra.

Lemma lower_ascii_idempotent (c : ascii) :
  Js.lower_ascii (Js.lower_ascii c) = Js.lower_ascii c.
Proof.
  destruct c as [[] [] [] [] [] [] [] []]; reflexivity.
Qed.

Lemma toLowerCase_idempotent (s : string) :
  Js.toLowerCase (Js.toLowerCase s) = Js.toLowerCase s.
Proof.
  induction s as [| c s IH]; [reflexivity |].
  cbn [Js.toLowerCase]. now rewrite lower_ascii_idempotent, IH.
Qed.

(** X24: both panels read a key without regard to case: a key event
    whose key is an upper-case letter is handled exactly as the event of
    the lower-case letter, so a key held with Shift or Caps Lock plays,
    repeats and releases as the same key. *)
Theorem keys_case_insensitive (k : string) :
  (forall st : Piano.State,
     Piano.step st (Piano.KeyDown k)
     = Piano.step st (Piano.KeyDown (Js.toLowerCase k))
     /\ Piano.step st (Piano.KeyUp k)
        = Piano.step st (Piano.KeyUp (Js.toLowerCase k)))
  /\ (forall st : Drums.State,
        Drums.step st (Drums.KeyDown k)
        = Drums.step st (Drums.KeyDown (Js.toLowerCase k))
        /\ Drums.step st (Drums.KeyUp k)
           = Drums.step st (Drums.KeyUp (Js.toLowerCase k))).
Proof.
  split; intros st; cbn [Piano.step Drums.step].
  - unfold Piano.handleKeyDown, Piano.handleKeyUp.
    now rewrite toLowerCase_idempotent.
  - unfold Drums.handleKeyDown, Drums.handleKeyUp.
    now rewrite toLowerCase_idempotent.
Qed.

End KeyboardExtra.

(** * The recorder on the page: the clock and the callbacks in use *)

Module PageSpec.
Import SoundSpace App.

(** C1: the call of [onNotePlay] made by the first key-down after the
    Record button is pressed appends nothing.  On the page as first
    rendered, Record is pressed at 1000 and the key [a] at 1100: recording
    is on, the piano calls [onNotePlay] with C4, and the log stays empty,
    because the keyboard listeners call the [handleNotePlay] of the render
    before the click.  The same note played with the pointer is
    logged. *)
Theorem record_then_key_not_logged :
  isRecording (session (step (initial true) (1000, ClickRecord))) = true
  /\ panel (step (initial true) (1000, ClickRecord))
     = PianoPanel (Piano.mounted true)
  /\ PianoTrace.notesPlayed
       (snd (Piano.step (Piano.mounted true) (Piano.KeyDown "a"))) = ["C4"]
  /\ recordedNotes
       (session (run (initial true) [(1000, ClickRecord); (1100, KeyDown "a")]))
     = []
  /\ recordedNotes
       (session (run (initial true)
                   [(1000, ClickRecord); (1100, PianoMouseDown "C4")]))
     = [mkNoteEvent piano "C4" 100].
Proof. repeat split; vm_compute; reflexivity. Qed.

(** C5: the call of [onNotePlay] made by the first key-down after the
    Stop button is pressed is appended to the log.  Record at 1000, the
    key [a] down and up, the key [s] down (logged, D4 at 300) and up, Stop
    at 1500: recording is off; the key [a] at 1600 has the piano call
    [onNotePlay] with C4, and the log gains C4 at 600, because the
    keyboard listeners call the [handleNotePlay] of a render made while
    recording.  The same note played with the pointer is not logged. *)
Theorem stop_then_key_logged :
  isRecording
    (session (run (initial true)
                [(1000, ClickRecord); (1100, KeyDown "a"); (1200, KeyUp "a");
                 (1300, KeyDown "s"); (1400, KeyUp "s"); (1500, ClickStop)]))
  = false
  /\ recordedNotes
       (session (run (initial true)
                   [(1000, ClickRecord); (1100, KeyDown "a"); (1200, KeyUp "a");
                    (1300, KeyDown "s"); (1400, KeyUp "s"); (1500, ClickStop)]))
     = [mkNoteEvent piano "D4" 300]
  /\ keyNote
       (panel (run (initial true)
                 [(1000, ClickRecord); (1100, KeyDown "a"); (1200, KeyUp "a");
                  (1300, KeyDown "s"); (1400, KeyUp "s"); (1500, ClickStop)]))
       "a" = Some "C4"
  /\ recordedNotes
       (session (run (initial true)
                   [(1000, ClickRecord); (1100, KeyDown "a"); (1200, KeyUp "a");
                    (1300, KeyDown "s"); (1400, KeyUp "s"); (1500, ClickStop);
                    (1600, KeyDown "a")]))
     = [mkNoteEvent piano "D4" 300; mkNoteEvent piano "C4" 600]
  /\ recordedNotes
       (session (run (initial true)
                   [(1000, ClickRecord); (1100, KeyDown "a"); (1200, KeyUp "a");
                    (1300, KeyDown "s"); (1400, KeyUp "s"); (1500, ClickStop);
                    (1600, PianoMouseDown "C4")]))
     = [mkNoteEvent piano "D4" 300].
Proof. repeat split; vm_compute; reflexivity. Qed.

(** C7, as stated, fails: [Date.now()] is the wall clock, and when it
    is set back between two calls the later event gets the smaller
    timestamp.  Started at 1000, calls at readings 1500 and then 1200 are
    logged with 500 and then 200. *)
Lemma timestamps_counterexample :
  timestamps
    (SoundSpace.run (handleStartRecording 1000 SoundSpace.initial)
       [(1500, NotePlay "C4"); (1200, NotePlay "E4")])
  = [500; 200]
  /\ ~ nondecreasing
        (timestamps
           (SoundSpace.run (handleStartRecording 1000 SoundSpace.initial)
              [(1500, NotePlay "C4"); (1200, NotePlay "E4")])).
Proof.
  split; [reflexivity |]. intros H.
  specialize (H 0%nat 1%nat 500 200). cbn in H.
  assert (500 <= 200) by (apply H; [lia | reflexivity | reflexivity]). lia.
Qed.

Lemma log_ordered_page_step (t : Z) (a : State) (e : Event) :
  wellFormed a ->
  log_ordered t (session a) -> log_ordered t (session (step a (t, e))).
Proof.
  intros Hwf Ho.
  destruct (AppSpec.step_cases a (t, e) Hwf)
    as [[-> _] | [(k & n & _ & _ & -> & _) | [(n & _ & -> & _)
       | [(i & -> & _) | [(_ & _ & -> & _) | (_ & -> & _)]]]]];
    cbn [fst]; try exact Ho.
  - now apply SoundSpaceSpec.log_ordered_notePlay.
  - now apply SoundSpaceSpec.log_ordered_notePlay.
  - apply SoundSpaceSpec.log_ordered_start.
Qed.

Lemma log_ordered_page_run (l : list (Z * Event)) :
  forall (t : Z) (a : State),
    Keys.chronological t l -> wellFormed a -> log_ordered t (session a) ->
    nondecreasing (timestamps (session (run a l))).
Proof.
  induction l as [| [u e] l IH]; intros t a Hc Hwf Ho.
  - exact (proj1 Ho).
  - destruct Hc as [Htu Hc]. rewrite AppSpec.run_cons.
    apply (IH u); [assumption | now apply AppSpec.wellFormed_step |].
    apply log_ordered_page_step; [assumption |].
    now apply (SoundSpaceSpec.log_ordered_later t).
Qed.

(** C7, amended: when the readings of [Date.now()] never decrease from
    one action to the next, the timestamps of the log are non-decreasing
    in log order: for every sequence of [onNotePlay] calls (and whatever
    else is asked of the controller) after a [startRecording], and on the
    page for every sequence of inputs, whichever callback the keyboard
    listeners hold. *)
Theorem log_timestamps_ordered :
  (forall (s0 : Session) (t0 : Z) (l : list (Z * Action)),
     SoundSpace.chronological t0 l ->
     nondecreasing
       (timestamps (SoundSpace.run (handleStartRecording t0 s0) l)))
  /\ (forall (running : bool) (t0 : Z) (l : list (Z * Event)),
        Keys.chronological t0 l ->
        nondecreasing (timestamps (session (run (initial running) l)))).
Proof.
  split.
  - intros s0 t0 l Hc.
    apply (SoundSpaceSpec.log_ordered_run l t0); [assumption |].
    apply SoundSpaceSpec.log_ordered_start.
  - intros running t0 l Hc.
    apply (log_ordered_page_run l t0); [assumption | |].
    + apply AppSpec.wellFormed_initial.
    + split; [| constructor]. intros i j x y _ Hi. destruct i; discriminate Hi.
Qed.

Lemma log_timestamps_ordered_witness :
  nondecreasing
    (timestamps
       (SoundSpace.run (handleStartRecording 1000 SoundSpace.initial)
          [(1100, NotePlay "C4"); (1100, NotePlay "E4");
           (1350, SelectInstrument drums); (1400, NotePlay "Kick-C2")]))
  /\ nondecreasing
       (timestamps
          (session
             (run (initial true)
                [(1000, ClickRecord); (1100, KeyDown "a"); (1200, KeyUp "a");
                 (1300, KeyDown "s"); (1300, PianoMouseDown "E4")]))).
Proof.
  split.
  - apply (proj1 log_timestamps_ordered). simpl. lia.
  - apply (proj2 log_timestamps_ordered true 1000). simpl. lia.
Defined.

End PageSpec.
